(** * goagen: the generator main file, the codegen writer and the
      build-and-run orchestrator

    A shallow embedding of four Go files of goa v2:

    - package [codegen] (writer): [Writer], [File], [Section],
      [NewWriter], [Writer.Write], [Section.Write], [formatCode];
    - [cmd/goagen/file.go]: [Main], [mainFile], and the behaviour of the
      program text held in the template [mainT];
    - [cmd/goagen/main.go]: [generate], [main], [help];
    - [examples/account/gen/transport/account_http.go]: the handlers of
      the account example with their decoders and encoders.

    Go strings are [string], the [Files] registry (a
    [map[string]struct{}]) is a [gset string], the file system is a
    [gmap string string] from paths to contents.  Calls into the operating
    system, the Go tool chain and the Go libraries outside the repository
    are answered by an environment record ([Env]); every such call is
    logged in an event trace. *)

From stdpp Require Import gmap strings list sorting.
From Stdlib Require Import ZArith Ascii.

Local Open Scope Z_scope.
Local Open Scope stdpp_scope.

(** ** Go strings *)

Definition nl : string := String "010"%char EmptyString.
Definition tab : string := String "009"%char EmptyString.
Definition dquote : string := String "034"%char EmptyString.

Definition str_eqb (a b : string) : bool := bool_decide (a = b).

(** [strings.Join(elems, sep)]. *)
Fixpoint strings_Join (elems : list string) (sep : string) : string :=
  match elems with
  | [] => ""
  | [e] => e
  | e :: rest => e +:+ sep +:+ strings_Join rest sep
  end.

(** [strings.Split(s, sep)] for a one-byte separator; [cur] is the element
    being read, reversed. *)
Fixpoint strings_Split_go (sep : ascii) (cur s : string) : list string :=
  match s with
  | EmptyString => [String.rev cur]
  | String a s' =>
      if Ascii.eqb a sep then String.rev cur :: strings_Split_go sep "" s'
      else strings_Split_go sep (String a cur) s'
  end.
Definition strings_Split (s : string) (sep : ascii) : list string :=
  strings_Split_go sep "" s.

Fixpoint mem_ascii (a : ascii) (cutset : string) : bool :=
  match cutset with
  | EmptyString => false
  | String c r => Ascii.eqb a c || mem_ascii a r
  end.

Fixpoint strings_TrimLeft (s cutset : string) : string :=
  match s with
  | EmptyString => ""
  | String a s' => if mem_ascii a cutset then strings_TrimLeft s' cutset else s
  end.

(** [strings.Trim(s, cutset)]: all leading and trailing bytes of [cutset]
    removed. *)
Definition strings_Trim (s cutset : string) : string :=
  String.rev (strings_TrimLeft (String.rev (strings_TrimLeft s cutset)) cutset).

(** [path[strings.LastIndex(path, "/")+1:]], the whole of [path] when it
    has no slash. *)
Definition after_last_slash (path : string) : string :=
  List.last (strings_Split path "/"%char) path.

(** ** path/filepath, Unix flavour *)

(** One step of [filepath.Clean] over the stack of kept elements (top
    first): empty and [.] elements go, [..] pops a kept element, is dropped
    at the root and is kept at the front of a relative path. *)
Definition clean_step (rooted : bool) (out : list string) (c : string)
  : list string :=
  if str_eqb c "" then out
  else if str_eqb c "." then out
  else if str_eqb c ".." then
    match out with
    | top :: rest => if str_eqb top ".." then c :: out else rest
    | [] => if rooted then out else [c]
    end
  else c :: out.

Definition is_rooted (path : string) : bool :=
  match path with
  | String a _ => Ascii.eqb a "/"%char
  | EmptyString => false
  end.

Definition filepath_Clean (path : string) : string :=
  if str_eqb path "" then "."
  else
    let rooted := is_rooted path in
    let out := reverse (fold_left (clean_step rooted)
                                  (strings_Split path "/"%char) []) in
    let body := strings_Join out "/" in
    if rooted then "/" +:+ body
    else if str_eqb body "" then "." else body.

(** [filepath.Join(elem...)]: leading empty elements are skipped, the rest
    joined with a slash and cleaned; the empty string when all are empty. *)
Fixpoint filepath_Join (elem : list string) : string :=
  match elem with
  | [] => ""
  | e :: rest =>
      if str_eqb e "" then filepath_Join rest
      else filepath_Clean (strings_Join elem "/")
  end.

(** Drops the bytes of a reversed path up to its first slash. *)
Fixpoint drop_to_slash (r : string) : string :=
  match r with
  | EmptyString => ""
  | String a r' => if Ascii.eqb a "/"%char then r else drop_to_slash r'
  end.

(** [filepath.Dir(path)]: everything up to the last slash, cleaned. *)
Definition filepath_Dir (path : string) : string :=
  filepath_Clean (String.rev (drop_to_slash (String.rev path))).

(** [filepath.Ext(path)], scanning the reversed path: the suffix from the
    last dot of the last element, empty when that element has no dot. *)
Fixpoint ext_go (r acc : string) : string :=
  match r with
  | EmptyString => ""
  | String a r' =>
      if Ascii.eqb a "/"%char then ""
      else if Ascii.eqb a "."%char then String a acc
      else ext_go r' (String a acc)
  end.
Definition filepath_Ext (path : string) : string := ext_go (String.rev path) "".

(** ** Results, panics and exits *)

Definition error := string.

(** A Go result pair [(T, error)]. *)
Inductive Result (T : Type) : Type :=
| Ok (v : T)
| Error (e : error).
Arguments Ok {T} v.
Arguments Error {T} e.

(** How a Go call ends: it returns, the process exits ([os.Exit]), or it
    panics. *)
Inductive Outcome (A : Type) : Type :=
| Ret (a : A)
| Exit (code : Z)
| Panic (msg : string).
Arguments Ret {A} a.
Arguments Exit {A} code.
Arguments Panic {A} msg.

(** ** unicode/utf8 and strconv, as far as [strconv.Unquote] goes *)

(** The bytes of a Go string, and back. *)
Fixpoint bytes_of (s : string) : list Z :=
  match s with
  | EmptyString => []
  | String a s' => Z.of_N (N_of_ascii a) :: bytes_of s'
  end.
Fixpoint string_of_bytes (b : list Z) : string :=
  match b with
  | [] => ""
  | z :: b' => String (ascii_of_N (Z.to_N z)) (string_of_bytes b')
  end.

Definition RuneError : Z := 65533.
Definition RuneSelf : Z := 128.
Definition MaxRune : Z := 1114111.

Definition in_range (lo hi b : Z) : bool := (lo <=? b) && (b <=? hi).

(** [utf8.DecodeRuneInString(s)]: the first rune of [s] and its width;
    [(RuneError, 1)] for a byte sequence that is not UTF-8. *)
Definition utf8_DecodeRune (s : list Z) : Z * nat :=
  match s with
  | [] => (RuneError, 0%nat)
  | s0 :: rest =>
      if s0 <? RuneSelf then (s0, 1%nat)
      else if in_range 194 223 s0 then
        match rest with
        | s1 :: _ =>
            if in_range 128 191 s1
            then (Z.lor (Z.shiftl (Z.land s0 31) 6) (Z.land s1 63), 2%nat)
            else (RuneError, 1%nat)
        | _ => (RuneError, 1%nat)
        end
      else if in_range 224 239 s0 then
        let lo := if s0 =? 224 then 160 else 128 in
        let hi := if s0 =? 237 then 159 else 191 in
        match rest with
        | s1 :: s2 :: _ =>
            if in_range lo hi s1 && in_range 128 191 s2
            then (Z.lor (Z.shiftl (Z.land s0 15) 12)
                    (Z.lor (Z.shiftl (Z.land s1 63) 6) (Z.land s2 63)), 3%nat)
            else (RuneError, 1%nat)
        | _ => (RuneError, 1%nat)
        end
      else if in_range 240 244 s0 then
        let lo := if s0 =? 240 then 144 else 128 in
        let hi := if s0 =? 244 then 143 else 191 in
        match rest with
        | s1 :: s2 :: s3 :: _ =>
            if in_range lo hi s1 && in_range 128 191 s2 && in_range 128 191 s3
            then (Z.lor (Z.shiftl (Z.land s0 7) 18)
                    (Z.lor (Z.shiftl (Z.land s1 63) 12)
                       (Z.lor (Z.shiftl (Z.land s2 63) 6) (Z.land s3 63))), 4%nat)
            else (RuneError, 1%nat)
        | _ => (RuneError, 1%nat)
        end
      else (RuneError, 1%nat)
  end.

(** [utf8.ValidRune(r)]. *)
Definition utf8_ValidRune (r : Z) : bool :=
  in_range 0 55295 r || in_range 57344 MaxRune r.

(** [utf8.EncodeRune(p, r)], the bytes written. *)
Definition utf8_EncodeRune (r : Z) : list Z :=
  let r := if utf8_ValidRune r then r else RuneError in
  if r <=? 127 then [r]
  else if r <=? 2047 then
    [Z.lor 192 (Z.shiftr r 6); Z.lor 128 (Z.land r 63)]
  else if r <=? 65535 then
    [Z.lor 224 (Z.shiftr r 12); Z.lor 128 (Z.land (Z.shiftr r 6) 63);
     Z.lor 128 (Z.land r 63)]
  else
    [Z.lor 240 (Z.shiftr r 18); Z.lor 128 (Z.land (Z.shiftr r 12) 63);
     Z.lor 128 (Z.land (Z.shiftr r 6) 63); Z.lor 128 (Z.land r 63)].

(** [unhex(b)] of strconv. *)
Definition unhex (b : Z) : option Z :=
  if in_range 48 57 b then Some (b - 48)
  else if in_range 97 102 b then Some (b - 97 + 10)
  else if in_range 65 70 b then Some (b - 65 + 10)
  else None.

(** The value of [n] hexadecimal digits at the front of [s], and the
    rest. *)
Fixpoint hex_digits (n : nat) (v : Z) (s : list Z) : option (Z * list Z) :=
  match n with
  | O => Some (v, s)
  | S n' =>
      match s with
      | [] => None
      | b :: s' =>
          match unhex b with
          | None => None
          | Some x => hex_digits n' (Z.lor (Z.shiftl v 4) x) s'
          end
      end
  end.

(** [strconv.UnquoteChar(s, quote)]: the first character of the quoted
    text [s], whether it is a multibyte rune, and the rest; [None] for a
    syntax error. *)
Definition strconv_UnquoteChar (s : list Z) (quote : Z)
  : option (Z * bool * list Z) :=
  match s with
  | [] => None
  | c :: tail =>
      if (c =? quote) && ((quote =? 39) || (quote =? 34)) then None
      else if RuneSelf <=? c then
        let '(r, size) := utf8_DecodeRune s in Some (r, true, drop size s)
      else if negb (c =? 92) then Some (c, false, tail)
      else
        match tail with
        | [] => None
        | e :: s2 =>
            if e =? 97 then Some (7, false, s2)
            else if e =? 98 then Some (8, false, s2)
            else if e =? 102 then Some (12, false, s2)
            else if e =? 110 then Some (10, false, s2)
            else if e =? 114 then Some (13, false, s2)
            else if e =? 116 then Some (9, false, s2)
            else if e =? 118 then Some (11, false, s2)
            else if e =? 120 then
              match hex_digits 2 0 s2 with
              | Some (v, s3) => Some (v, false, s3)
              | None => None
              end
            else if (e =? 117) || (e =? 85) then
              match hex_digits (if e =? 117 then 4 else 8) 0 s2 with
              | Some (v, s3) =>
                  if utf8_ValidRune v then Some (v, true, s3) else None
              | None => None
              end
            else if in_range 48 55 e then
              match s2 with
              | d1 :: d2 :: s3 =>
                  if in_range 48 55 d1 && in_range 48 55 d2 then
                    let v := Z.lor (Z.shiftl (Z.lor (Z.shiftl (e - 48) 3)
                                                    (d1 - 48)) 3) (d2 - 48) in
                    if 255 <? v then None else Some (v, false, s3)
                  else None
              | _ => None
              end
            else if e =? 92 then Some (92, false, s2)
            else if (e =? 39) || (e =? 34) then
              if e =? quote then Some (e, false, s2) else None
            else None
        end
  end.

(** The loop of [strconv.Unquote] over the text between the quotes; the
    fuel is the length of the text, of which every round takes a byte at
    least. *)
Fixpoint unquote_loop (fuel : nat) (quote : Z) (s buf : list Z)
  : option (list Z) :=
  match s with
  | [] => Some buf
  | _ :: _ =>
      match fuel with
      | O => None
      | S fuel' =>
          match strconv_UnquoteChar s quote with
          | None => None
          | Some (c, multibyte, ss) =>
              let buf := if (c <? RuneSelf) || negb multibyte
                         then buf ++ [c] else buf ++ utf8_EncodeRune c in
              if (quote =? 39) && negb (bool_decide (ss = [])) then None
              else unquote_loop fuel' quote ss buf
          end
      end
  end.

(** [strconv.Unquote(s)]: the string a Go string, raw string or character
    literal denotes; [None] for a syntax error. *)
Definition strconv_Unquote (s : string) : option string :=
  match bytes_of s with
  | quote :: rest =>
      match reverse rest with
      | last :: rinner =>
          let inner := reverse rinner in
          if negb (quote =? last) then None
          else if quote =? 96 then
            if bool_decide (96 ∈ inner) then None
            else Some (string_of_bytes (filter (λ b, b ≠ 13) inner))
          else if negb ((quote =? 34) || (quote =? 39)) then None
          else if bool_decide (10 ∈ inner) then None
          else string_of_bytes <$> unquote_loop (length inner) quote inner []
      | [] => None
      end
  | [] => None
  end.

(** ** Syntax trees of Go files, as far as imports go *)

(** An [ast.ImportSpec]: the optional local name and the path literal,
    quotes included ([imp.Path.Value]). *)
Record ast_ImportSpec := mkImp {
  imp_Name : option string;
  imp_Path_Value : string;
}.

(** An [ast.File]: its import declarations in groups (what
    [astutil.Imports] returns), and the package qualifiers [X] of the
    selector expressions [X.Sel] of the file, [X] a top-level name. *)
Record ast_File := mkAst {
  ast_Imports : list (list ast_ImportSpec);
  ast_Selectors : list string;
}.

(** [importPath(s)] of astutil: what the path literal denotes, the empty
    string for a literal [strconv.Unquote] refuses. *)
Definition importPath (s : ast_ImportSpec) : string :=
  default "" (strconv_Unquote (imp_Path_Value s)).

(** [astutil.Imports(fset, f)]: the imports of [f], group by group. *)
Definition astutil_Imports (f : ast_File) : list (list ast_ImportSpec) :=
  ast_Imports f.

(** [importSpec(f, path)]: the first import of [f] with that path. *)
Definition importSpec (f : ast_File) (path : string) : option ast_ImportSpec :=
  head (filter (λ s, importPath s = path) (concat (ast_Imports f))).

(** [astutil.UsesImport(f, path)]: no such import, not used; a blank or
    dot import counts as used; otherwise some selector is qualified by the
    import's name, which is guessed from the path when not given. *)
Definition astutil_UsesImport (f : ast_File) (path : string) : bool :=
  match importSpec f path with
  | None => false
  | Some spec =>
      match imp_Name spec with
      | None => bool_decide (after_last_slash path ∈ ast_Selectors f)
      | Some name =>
          if str_eqb name "_" then true
          else if str_eqb name "." then true
          else bool_decide (name ∈ ast_Selectors f)
      end
  end.

(** Whether [astutil.DeleteNamedImport(fset, f, name, path)] deletes the
    import [s]. *)
Definition delete_matches (name path : string) (s : ast_ImportSpec) : bool :=
  match imp_Name s with
  | None => str_eqb name "" && str_eqb (importPath s) path
  | Some n => str_eqb n name && str_eqb (importPath s) path
  end.

(** A group of imports after the imports [del] selects are deleted from
    it: a group that loses its last import is no group any more, a group
    that was empty ([import ()]) stays. *)
Definition delete_from_group (del : ast_ImportSpec → bool)
    (g : list ast_ImportSpec) : option (list ast_ImportSpec) :=
  match filter (λ s, del s = false) g, g with
  | [], _ :: _ => None
  | g', _ => Some g'
  end.

(** [astutil.DeleteNamedImport(fset, f, name, path)], the tree afterwards. *)
Definition astutil_DeleteNamedImport (f : ast_File) (name path : string)
  : ast_File :=
  mkAst (omap (delete_from_group (delete_matches name path)) (ast_Imports f))
        (ast_Selectors f).

(** [astutil.DeleteImport(fset, f, path)]. *)
Definition astutil_DeleteImport (f : ast_File) (path : string) : ast_File :=
  astutil_DeleteNamedImport f "" path.

(** ** The world: files, directories and the trace of outside calls *)

(** An [exec.Cmd], the fields [generate] sets. *)
Record Cmd := mkCmd {
  cmd_Path : string;
  cmd_Args : list string;
  cmd_Dir : string;
}.

(** The calls that leave the three files, one event for each. *)
Inductive Event : Type :=
| EMkdirAll (dir : string)
| EOpenFile (path : string)
| EImportDir (dir : string)
| EExecute (path out : string)
| EParseFile (path : string)
| EProcess (path : string)
| EBuildImport (path : string)
| ELookPath (file : string)
| EGetwd
| ETempDir (dir pfx : string)
| ERemoveAll (dir : string)
| ERun (c : Cmd)
| EStderr (msg : string)
| EStdout (msg : string)
| ERunDSL
| ERoots
| EGenerator (name : string).

(** The contents of the files, the directories that exist, and the calls
    made so far, oldest first. *)
Record World := mkWorld {
  w_files : gmap string string;
  w_dirs : gset string;
  w_trace : list Event;
}.

(** A template with its data type: what [Execute] writes to its sink and
    the error it ends with, if any. *)
Definition template (D : Type) : Type := D → string * option error.

(** A [Section]: a template and accompanying render data. *)
Record GoSection : Type := mkSection {
  DataT : Type;
  Template : template DataT;
  Data : DataT;
}.

(** [ImportSpec] defines a generated import statement. *)
Record ImportSpec := mkImportSpec {
  Name : string;
  Path : string;
}.

(** A [File] interface value: the two methods, closed over the receiver.
    [OutputPath] only reads the reserved set. *)
Record File : Type := mkFile {
  Sections : string → list GoSection;
  OutputPath : gset string → string;
}.

(** [Writer]: the output directory and the registry of written paths. *)
Record Writer := mkWriter {
  Dir : string;
  Files : gset string;
}.

(** What the world outside the three files answers.  Answers may depend on
    the world at the time of the call.  [codegen_Header] is the function
    [Header] of package codegen, which lives in another file of the
    package; [mainTmpl] is what text/template renders [mainT] to. *)
Record Env : Type := mkEnv {
  os_MkdirAll_err : World → string → option error;
  os_OpenFile_err : World → string → option error;
  build_ImportDir_res : World → string → Result string;
  parser_ParseFile_res : string → string → Result ast_File;
  imports_Process_res : string → string → Result string;
  build_Import_err : World → string → string → option error;
  exec_LookPath_res : World → string → Result string;
  os_Getenv_val : string → string;
  os_Getwd_res : World → Result string;
  ioutil_TempDir_res : World → string → string → Result string;
  runtime_GOOS : string;
  exec_CombinedOutput_res : World → Cmd → string * option error;
  pkg_Version : string;
  codegen_Header : string → string → list ImportSpec → GoSection;
  mainTmpl : template (list string);
}.

(** ** The monad of Go calls *)

Definition M (A : Type) : Type := World → Outcome A * World.

Definition ret {A} (a : A) : M A := λ σ, (Ret a, σ).

Definition bind {A B} (m : M A) (k : A → M B) : M B :=
  λ σ, match m σ with
       | (Ret a, σ') => k a σ'
       | (Exit c, σ') => (Exit c, σ')
       | (Panic msg, σ') => (Panic msg, σ')
       end.

#[global] Instance M_ret : MRet M := @ret.
#[global] Instance M_bind : MBind M := λ A B k m, bind m k.

Definition log (e : Event) (σ : World) : World :=
  mkWorld (w_files σ) (w_dirs σ) (w_trace σ ++ [e]).

Definition emit (e : Event) : M unit := λ σ, (Ret tt, log e σ).
Definition ask {A} (f : World → A) : M A := λ σ, (Ret (f σ), σ).
Definition os_Exit {A} (code : Z) : M A := λ σ, (Exit code, σ).
Definition panic {A} (msg : string) : M A := λ σ, (Panic msg, σ).

Definition set_file (path content : string) : M unit :=
  λ σ, (Ret tt, mkWorld (<[path := content]> (w_files σ)) (w_dirs σ) (w_trace σ)).
Definition add_dir (dir : string) : M unit :=
  λ σ, (Ret tt, mkWorld (w_files σ) ({[dir]} ∪ w_dirs σ) (w_trace σ)).

(** [defer cleanup] around [body]: the deferred call runs when the body
    returns or panics, not when the process exits. *)
Definition defer {A} (cleanup : M unit) (body : M A) : M A :=
  λ σ, match body σ with
       | (Exit c, σ') => (Exit c, σ')
       | (o, σ') => (o, (cleanup σ').2)
       end.

(** ** Calls into the operating system and the Go libraries *)

Section Calls.
Context (E : Env).

(** [os.MkdirAll(dir, 0755)]. *)
Definition os_MkdirAll (dir : string) : M (option error) :=
  r ← ask (λ σ, os_MkdirAll_err E σ dir);
  emit (EMkdirAll dir);;
  match r with
  | None => add_dir dir;; mret None
  | Some err => mret (Some err)
  end.

(** [os.OpenFile(path, O_CREATE|O_TRUNC|O_WRONLY, 0644)]: on success the
    file exists and is empty. *)
Definition os_OpenFile (path : string) : M (option error) :=
  r ← ask (λ σ, os_OpenFile_err E σ path);
  emit (EOpenFile path);;
  match r with
  | None => set_file path "";; mret None
  | Some err => mret (Some err)
  end.

(** Writing bytes to the open file at [path]. *)
Definition file_Write (path bytes : string) : M unit :=
  old ← ask (λ σ, default "" (w_files σ !! path));
  set_file path (old +:+ bytes).

(** [ioutil.ReadFile(path)]. *)
Definition ioutil_ReadFile (path : string) : M (Result string) :=
  ask (λ σ, match w_files σ !! path with
            | Some c => Ok c
            | None => Error ("open " +:+ path +:+ ": no such file or directory")
            end).

(** [build.ImportDir(dir, build.FindOnly)], its [ImportPath]. *)
Definition build_ImportDir (dir : string) : M (Result string) :=
  r ← ask (λ σ, build_ImportDir_res E σ dir);
  emit (EImportDir dir);;
  mret r.

(** [parser.ParseFile(fset, path, nil, parser.ParseComments)]: reads the
    file at [path] and parses it. *)
Definition parser_ParseFile (path : string) : M (Result ast_File) :=
  src ← ioutil_ReadFile path;
  emit (EParseFile path);;
  match src with
  | Ok c => mret (parser_ParseFile_res E path c)
  | Error err => mret (Error err)
  end.

(** [imports.Process(path, src, &opts)] with [FormatOnly]. *)
Definition imports_Process (path src : string) : M (Result string) :=
  emit (EProcess path);;
  mret (imports_Process_res E path src).

(** [build.Import(path, srcDir, build.IgnoreVendor)], its error. *)
Definition build_Import (path srcDir : string) : M (option error) :=
  r ← ask (λ σ, build_Import_err E σ path srcDir);
  emit (EBuildImport path);;
  mret r.

Definition exec_LookPath (file : string) : M (Result string) :=
  r ← ask (λ σ, exec_LookPath_res E σ file);
  emit (ELookPath file);;
  mret r.

Definition os_Getwd : M (Result string) :=
  r ← ask (os_Getwd_res E);
  emit EGetwd;;
  mret r.

(** [ioutil.TempDir(dir, prefix)]: on success the new directory exists. *)
Definition ioutil_TempDir (dir pfx : string) : M (Result string) :=
  r ← ask (λ σ, ioutil_TempDir_res E σ dir pfx);
  emit (ETempDir dir pfx);;
  match r with
  | Ok name => add_dir name;; mret (Ok name)
  | Error err => mret (Error err)
  end.

(** Whether the path [p] names [dir] or something below it, both paths
    cleaned first. *)
Definition below (dir p : string) : bool :=
  let d := filepath_Clean dir in
  let q := filepath_Clean p in
  str_eqb q d || String.prefix (if str_eqb d "/" then d else d +:+ "/") q.

Definition remove_below (dir : string) : M unit :=
  λ σ, (Ret tt,
        mkWorld (filter (λ kv, below dir kv.1 = false) (w_files σ))
                (filter (λ p, below dir p = false) (w_dirs σ))
                (w_trace σ)).

(** [os.RemoveAll(dir)]. *)
Definition os_RemoveAll (dir : string) : M unit :=
  emit (ERemoveAll dir);;
  remove_below dir.

(** [exec.Command(name, arg...)]. *)
Definition exec_Command (name : string) (arg : list string) : Cmd :=
  mkCmd name (name :: arg) "".

(** [c.CombinedOutput()]: starts the process and waits for it.  Files
    the child process leaves behind are not tracked. *)
Definition Cmd_CombinedOutput (c : Cmd) : M (string * option error) :=
  r ← ask (λ σ, exec_CombinedOutput_res E σ c);
  emit (ERun c);;
  mret r.
End Calls.

(** ** Package codegen: the writer *)

(** [NewWriter(dir)]. *)
Definition NewWriter (dir : string) : Writer := mkWriter dir ∅.

(** [ImportSpec.Code]. *)
Definition ImportSpec_Code (s : ImportSpec) : string :=
  if bool_decide (0 < String.length (Name s))%nat
  then Name s +:+ " " +:+ dquote +:+ Path s +:+ dquote
  else dquote +:+ Path s +:+ dquote.

(** [scanner.PrintError(&buf, err)], the buffer afterwards. *)
Definition scanner_PrintError (err : error) : string := err +:+ nl.

(** The error of [formatCode] for a file that does not parse. *)
Definition parse_failure (err : error) (content : string) : error :=
  scanner_PrintError err +:+ nl +:+ "========" +:+ nl +:+ "Content:" +:+ nl
    +:+ content.

(** One round of the loop of [formatCode] over the declared imports: an
    import the tree does not use is deleted from the tree. *)
Definition prune_import (file : ast_File) (imp : ast_ImportSpec) : ast_File :=
  let path := strings_Trim (imp_Path_Value imp) dquote in
  if astutil_UsesImport file path then file
  else
    match imp_Name imp with
    | Some name => astutil_DeleteNamedImport file name path
    | None => astutil_DeleteImport file path
    end.

(** The whole loop: the groups are read once, before the first round. *)
Definition prune_imports (file : ast_File) : ast_File :=
  fold_left prune_import (concat (astutil_Imports file)) file.

Section Codegen.
Context (E : Env).

(** [Section.Write(w)], the sink being the open file at [path]. *)
Definition Section_Write (s : GoSection) (path : string) : M (option error) :=
  let '(out, err) := Template s (Data s) in
  emit (EExecute path out);;
  file_Write path out;;
  mret err.

(** The loop of [Write] over the sections: stops at the first error. *)
Fixpoint write_sections (ss : list GoSection) (path : string)
  : M (option error) :=
  match ss with
  | [] => mret None
  | s :: rest =>
      r ← Section_Write s path;
      match r with
      | Some err => mret (Some err)
      | None => write_sections rest path
      end
  end.

(** [formatCode(path)].  The tree [file] parsed from the file has its
    unused imports deleted; what is written back is
    [imports.Process(path, content, &opts)], [content] being the bytes
    read from the file. *)
Definition formatCode (path : string) : M (option error) :=
  parsed ← parser_ParseFile E path;
  rd ← ioutil_ReadFile path;
  let content := match rd with Ok c => c | Error _ => "" end in
  match parsed with
  | Error err => mret (Some (parse_failure err content))
  | Ok file =>
      let file := prune_imports file in
      b ← imports_Process E path content;
      match b with
      | Error err => mret (Some err)
      | Ok b =>
          w ← os_OpenFile E path;
          match w with
          | Some err => mret (Some err)
          | None => file_Write path b;; mret None
          end
      end
  end.

(** [Writer.Write(file)]: the writer afterwards and the result pair. *)
Definition Write (w : Writer) (file : File) : M (Writer * Result string) :=
  let path := filepath_Join [Dir w; OutputPath file (Files w)] in
  mk ← os_MkdirAll E (filepath_Dir path);
  match mk with
  | Some err => mret (w, Error err)
  | None =>
  f ← os_OpenFile E path;
  match f with
  | Some err => mret (w, Error err)
  | None =>
  pkg ← build_ImportDir E (Dir w);
  match pkg with
  | Error err => mret (w, Error err)
  | Ok genPkg =>
  ws ← write_sections (Sections file genPkg) path;
  match ws with
  | Some err => mret (w, Error err)
  | None =>
  fc ← (if str_eqb (filepath_Ext path) ".go" then formatCode path
        else mret None);
  match fc with
  | Some err => mret (w, Error err)
  | None => mret (mkWriter (Dir w) ({[path]} ∪ Files w), Ok path)
  end end end end end.
End Codegen.

(** ** cmd/goagen/file.go *)

(** [mainFile] is the codegen file for a given service. *)
Record mainFile := mkMainFile {
  Generators : list string;
  DesignPath : string;
}.

(** The loop of [Main]: [gens[i]] is set for each command in turn; an
    unknown command panics. *)
Fixpoint Main_loop (i : nat) (commands gens : list string)
  : Outcome (list string) :=
  match commands with
  | [] => Ret gens
  | c :: rest =>
      if str_eqb c "server" then Main_loop (S i) rest (<[i := "Server"]> gens)
      else if str_eqb c "client" then Main_loop (S i) rest (<[i := "Client"]> gens)
      else if str_eqb c "openapi" then Main_loop (S i) rest (<[i := "OpenAPI"]> gens)
      else Panic ("unknown command " +:+ c)
  end.

(** [Main(commands, designPath)]; the [codegen.File] returned holds this
    [*mainFile]. *)
Definition Main (commands : list string) (designPath : string)
  : Outcome mainFile :=
  let gens := replicate (length commands) "" in
  match Main_loop 0 commands gens with
  | Ret gens => Ret (mkMainFile gens designPath)
  | Exit c => Exit c
  | Panic msg => Panic msg
  end.

Section MainFile.
Context (E : Env).

(** [mainFile.Sections(genPkg)]. *)
Definition mainFile_Sections (m : mainFile) (genPkg : string)
  : list GoSection :=
  let header :=
    codegen_Header E "Generator main" "main"
      [ mkImportSpec "" "flag";
        mkImportSpec "" "fmt";
        mkImportSpec "" "os";
        mkImportSpec "" "sort";
        mkImportSpec "" "strings";
        mkImportSpec "" "goa.design/goa.v2/codegen";
        mkImportSpec "" "goa.design/goa.v2/codegen/generators";
        mkImportSpec "" "goa.design/goa.v2/eval";
        mkImportSpec "" "goa.design/goa.v2/pkg";
        mkImportSpec "_" (DesignPath m) ] in
  let body := mkSection (list string) (mainTmpl E) (Generators m) in
  [header; body].

(** [mainFile.OutputPath(_)]. *)
Definition mainFile_OutputPath (m : mainFile) (_ : gset string) : string :=
  "main.go".

(** A [*mainFile] as a [codegen.File]. *)
Definition mainFile_File (m : mainFile) : File :=
  mkFile (mainFile_Sections m) (mainFile_OutputPath m).
End MainFile.

(** ** The generator main: the program held in [mainT] *)

(** What the packages [eval] and [generator] answer inside the compiled
    driver. *)
Record DriverEnv : Type := mkDriverEnv {
  Root : Type;
  eval_Context_Errors : World → option error;
  eval_RunDSL_err : World → option error;
  eval_Context_Roots_res : World → Result (list Root);
  generator : string → World → list Root → Result (list File);
}.

(** What [flag.Parse()] makes of the arguments of the driver: the values
    of its two flags (empty when not given), or, the flag set being the
    default one ([flag.ExitOnError]), a text on standard error and the end
    of the process with the status the flag package chooses. *)
Inductive DriverFlags : Type :=
| DriverFlagsParsed (out version : string)
| DriverFlagsExit (printed : string) (code : Z).

(** [sort.Strings]: ascending, bytes compared as numbers. *)
Definition sort_Strings (a : list string) : list string :=
  merge_sort String.le a.

Section Driver.
Context (E : Env) (D : DriverEnv).

(** [fail(msg, vals...)] of the driver, [msg] already formatted. *)
Definition fail {A} (msg : string) : M A :=
  emit (EStderr msg);; os_Exit 1.

Definition eval_RunDSL : M (option error) :=
  r ← ask (eval_RunDSL_err D);
  emit ERunDSL;;
  mret r.

Definition eval_Context_Roots : M (Result (list (Root D))) :=
  r ← ask (eval_Context_Roots_res D);
  emit ERoots;;
  mret r.

(** The blocks the template repeats, one for each generator name of its
    data: [fs, err := generator.NAME(roots...)], then [fail] or
    [files = append(files, fs...)].  (Rendered for two names or more, the
    text declares [fs] and [err] twice in one block and does not compile;
    what such a driver would do is modelled all the same.) *)
Fixpoint run_generators (gens : list string) (roots : list (Root D))
    (files : list File) : M (list File) :=
  match gens with
  | [] => mret files
  | g :: rest =>
      r ← ask (λ σ, generator D g σ roots);
      emit (EGenerator g);;
      match r with
      | Error err => fail err
      | Ok fs => run_generators rest roots (files ++ fs)
      end
  end.

(** The loop [for i, file := range files]: [outputs[i]] is the path
    [w.Write(file)] returned; the first error ends the process. *)
Fixpoint write_files (w : Writer) (i : nat) (files : list File)
    (outputs : list string) : M (list string) :=
  match files with
  | [] => mret outputs
  | file :: rest =>
      wr ← Write E w file;
      match wr.2 with
      | Error err => fail err
      | Ok f => write_files wr.1 (S i) rest (<[i := f]> outputs)
      end
  end.

Definition version_mismatch (version : string) : string :=
  "goa DSL was run with goa version " +:+ version +:+
  " but compiled generator is running " +:+ pkg_Version E +:+ nl.

(** [main] of the driver rendered for the generator names [gens], from
    the return of [flag.Parse()] on, the flags having the values [out] and
    [version] (empty when not given). *)
Definition driver_main (gens : list string) (out version : string)
  : M unit :=
  (if str_eqb out "" then fail "missing output flag" else mret tt);;
  (if str_eqb version "" then fail "missing version flag" else mret tt);;
  (if negb (str_eqb version (pkg_Version E))
   then fail (version_mismatch version) else mret tt);;
  errs ← ask (eval_Context_Errors D);
  match errs with Some err => fail err | None => mret tt end;;
  run ← eval_RunDSL;
  match run with Some err => fail err | None => mret tt end;;
  rs ← eval_Context_Roots;
  roots ← match rs with Error err => fail err | Ok rs => mret rs end;
  files ← run_generators gens roots [];
  let w := NewWriter out in
  outputs ← write_files w 0 files (replicate (length files) "");
  let outputs := sort_Strings outputs in
  emit (EStdout (strings_Join outputs nl +:+ nl)).

(** [main] of the driver from its first statement, started with the
    arguments [args]. *)
Definition driver_process (flag_Parse : list string → DriverFlags)
    (gens args : list string) : M unit :=
  match flag_Parse args with
  | DriverFlagsExit printed code => emit (EStderr printed);; os_Exit code
  | DriverFlagsParsed out version => driver_main gens out version
  end.
End Driver.

(** ** cmd/goagen/main.go: generate *)

Section Generate.
Context (E : Env).

(** The steps of [generate] after the [defer] statement. *)
Definition generate_staged (cmds : list string) (path output tmpDir gobin : string)
  : M (Result string) :=
  let w := NewWriter tmpDir in
  m ← (λ σ, (Main cmds path, σ));
  wr ← Write E w (mainFile_File E m);
  match wr.2 with
  | Error err => mret (Error err)
  | Ok _ =>
  let out := if str_eqb (runtime_GOOS E) "windows"
             then "goagen" +:+ ".exe" else "goagen" in
  let c := mkCmd gobin [gobin; "build"; "-o"; out] tmpDir in
  co ← Cmd_CombinedOutput E c;
  match co.2 with
  | Some err =>
      let err := if bool_decide (0 < String.length co.1)%nat
                 then co.1 else err in
      mret (Error ("failed to compile generator: " +:+ err))
  | None =>
  let args := ["--version=" +:+ pkg_Version E; "--output=" +:+ output] in
  let cmd := exec_Command (filepath_Join [tmpDir; out]) args in
  co ← Cmd_CombinedOutput E cmd;
  match co.2 with
  | Some err => mret (Error (err +:+ nl +:+ co.1))
  | None => mret (Ok co.1)
  end end end.

(** [generate(cmds, path, output, gens, debug)]. *)
Definition generate (cmds : list string) (path output : string)
    (gens debug : bool) : M (Result string) :=
  imp ← build_Import E path ".";
  match imp with
  | Some err => mret (Error err)
  | None =>
  lp ← exec_LookPath E "go";
  match lp with
  | Error _ =>
      mret (Error ("failed to find a go compiler, looked in " +:+ dquote
                     +:+ os_Getenv_val E "PATH" +:+ dquote))
  | Ok gobin =>
  cwd ← os_Getwd E;
  let wd := match cwd with Error _ => "" | Ok _ => "." end in
  tmp ← ioutil_TempDir E wd "goagen";
  match tmp with
  | Error err => mret (Error err)
  | Ok tmpDir =>
      if debug then generate_staged cmds path output tmpDir gobin
      else defer (os_RemoveAll tmpDir)
                 (generate_staged cmds path output tmpDir gobin)
  end end end.
End Generate.

(** ** cmd/goagen/main.go: main and help *)

(** The values of the flag set of [main] after [fset.Parse]. *)
Record Flags := mkFlags {
  flag_o : string;
  flag_output : string;
  flag_s : bool;
  flag_scaffold : bool;
  flag_debug : bool;
}.

(** How [fset.Parse] ends: the flags are set, or the flag set reports a
    failure, which prints [printed] and calls [fset.Usage]. *)
Inductive FlagParse : Type :=
| FlagsParsed (f : Flags)
| FlagsFailed (printed : string).

(** The text [help] prints. *)
Definition help_text : string :=
  strings_Join
    [ "goagen is the goa code generation tool.";
      "Learn more about goa at https://goa.design.";
      "";
      "The tool supports multiple subcommands that generate different outputs.";
      "The only argument is the Go import path to the service design package.";
      "";
      "If no command is specified then all commands are run.";
      "";
      "The " +:+ dquote +:+ "-scaffold" +:+ dquote +:+
        " flag tells goagen to also generate the scaffold for the server";
      "and/or the client depending on which command is being executed. The scaffold is";
      "code that contains placeholders and is generated once to help get started quickly.";
      "";
      "Usage:";
      "";
      "  goagen [server] [client] [openapi] PACKAGE [-out DIRECTORY] [-scaffold] [-debug]";
      "";
      "  goagen version";
      "";
      "Commands:";
      "  server";
      "        Generate service interfaces, endpoints and server transport code.";
      "";
      "  client";
      "        Generate endpoints and client transport code.";
      "";
      "  openapi";
      "        Generate OpenAPI specification (https://www.openapis.org/).";
      "";
      "  version";
      "        Print version information (exclusive with other flags and commands).";
      "";
      "Args:";
      "  PACKAGE";
      "        Go import path to design package";
      "";
      "Flags:";
      "  -o, -output DIRECTORY";
      "        output directory, defaults to the current working directory";
      "";
      "  -s, -scaffold";
      "        generate scaffold (does not override existing files)";
      "";
      "  -debug";
      "        Print debug information (mainly intended for goa developers)";
      "";
      "Examples:";
      "";
      "Bootstrap a new service:";
      "  goagen goa.design/cellar/design -s";
      "";
      "(Re)Generate the server code and OpenAPI spec only:";
      "  goagen server openapi goa.design/cellar/design";
      "";
      "" ] nl.

(** The condition of the loop of [main] on one argument. *)
Definition is_command (a : string) : bool :=
  str_eqb a "client" || str_eqb a "server" || str_eqb a "openapi".

(** The loop of [main] over the commands: [rest] is [os.Args[offset:]];
    the loop goes on while an argument follows [os.Args[offset]] and
    [os.Args[offset]] is a command. *)
Fixpoint scan_commands (rest : list string) (offset : nat) (cm : gset string)
  : nat * gset string :=
  match rest with
  | a :: (_ :: _) as rest' =>
      if is_command a then scan_commands rest' (S offset) ({[a]} ∪ cm)
      else (offset, cm)
  | _ => (offset, cm)
  end.

(** The panic of an index expression out of range. *)
Definition index_out_of_range : string := "runtime error: index out of range".

(** [os.Args[i]]. *)
Definition os_Args_at (args : list string) (i : nat) : M string :=
  match args !! i with
  | Some a => mret a
  | None => panic index_out_of_range
  end.

Section Cli.
Context (E : Env) (flag_Parse : list string → FlagParse).

(** [help()]. *)
Definition help {A} : M A :=
  emit (EStderr help_text);; os_Exit 1.

(** The first block of [main]: the commands, the design package path and
    the index of the path among the arguments.  The keys of the map [cm]
    are appended in the order of the range, whatever it is, and then
    sorted. *)
Definition main_args (args : list string) : M (list string * string * nat) :=
  a1 ← os_Args_at args 1;
  if str_eqb a1 "version" then
    emit (EStdout ("goagen version " +:+ pkg_Version E +:+ nl));; os_Exit 0
  else if is_command a1 then
    (if bool_decide (length args = 2%nat) then help else mret tt);;
    let sc := scan_commands (drop 2 args) 2 {[a1]} in
    let cmds := sort_Strings (elements sc.2) in
    path ← os_Args_at args sc.1;
    mret (cmds, path, sc.1)
  else
    path ← os_Args_at args 1;
    mret (["client"; "openapi"; "server"], path, 1%nat).

(** The second block of [main]: the output directory, the scaffold flag
    and the debug flag. *)
Definition main_flags (args : list string) (offset : nat)
  : M (string * bool * bool) :=
  if bool_decide (offset + 1 < length args)%nat then
    match flag_Parse (drop (offset + 1) args) with
    | FlagsFailed printed => emit (EStderr printed);; help
    | FlagsParsed f =>
        let output := flag_o f in
        let output := if str_eqb output "" then flag_output f else output in
        let gens := flag_s f in
        let gens := if negb gens then flag_scaffold f else gens in
        mret (output, gens, flag_debug f)
    end
  else mret (".", false, false).

(** [main()], run with the arguments [args] ([os.Args]). *)
Definition goagen_main (args : list string) : M unit :=
  parsed ← main_args args;
  flags ← main_flags args parsed.2;
  r ← generate E parsed.1.1 parsed.1.2 flags.1.1 flags.1.2 flags.2;
  match r with
  | Error err => emit (EStderr err);; os_Exit 1
  | Ok out => emit (EStdout out)
  end.
End Cli.

(** ** Sessions, observations and sample environments *)

(** A writer session: the files are written one after the other through
    the same writer; the results are kept in order. *)
Fixpoint write_session (E : Env) (w : Writer) (files : list File)
  : M (Writer * list (Result string)) :=
  match files with
  | [] => mret (w, [])
  | file :: rest =>
      wr ← Write E w file;
      rs ← write_session E wr.1 rest;
      mret (rs.1, wr.2 :: rs.2)
  end.

Definition is_Ok {T} (r : Result T) : Prop :=
  match r with Ok _ => True | Error _ => False end.

(** The directories whose import path was resolved, in order. *)
Definition resolutions (t : list Event) : list string :=
  omap (λ e, match e with EImportDir d => Some d | _ => None end) t.

(** Between two worlds the directories only grow and the trace gains the
    resolutions [ds]. *)
Definition grows (ds : list string) (σ σ' : World) : Prop :=
  w_dirs σ ⊆ w_dirs σ' ∧
  resolutions (w_trace σ') = resolutions (w_trace σ) ++ ds.

(** The command names of goagen and the generator each stands for. *)
Inductive maps_to : string → string → Prop :=
| server_Server : maps_to "server" "Server"
| client_Client : maps_to "client" "Client"
| openapi_OpenAPI : maps_to "openapi" "OpenAPI".

Definition valid_command (c : string) : Prop :=
  c ∈ ["server"; "client"; "openapi"].

(** The worlds [generate] passes through before it stages its workspace,
    and the directory it asks [ioutil.TempDir] to create it in. *)
Definition after_Import (path : string) (σ : World) : World :=
  log (EBuildImport path) σ.
Definition after_LookPath (path : string) (σ : World) : World :=
  log (ELookPath "go") (after_Import path σ).
Definition after_Getwd (path : string) (σ : World) : World :=
  log EGetwd (after_LookPath path σ).
Definition generate_wd (E : Env) (path : string) (σ : World) : string :=
  match os_Getwd_res E (after_LookPath path σ) with
  | Error _ => ""
  | Ok _ => "."
  end.

(** [generate] gets as far as creating the workspace [tmpDir]. *)
Definition workspace_staged (E : Env) (path : string) (σ : World)
    (tmpDir : string) : Prop :=
  build_Import_err E σ path "." = None ∧
  is_Ok (exec_LookPath_res E (after_Import path σ) "go") ∧
  ioutil_TempDir_res E (after_Getwd path σ) (generate_wd E path σ) "goagen"
    = Ok tmpDir.

(** A Go file, formatted, that imports [fmt] and [os] and uses [fmt]
    only, and its syntax tree. *)
Definition sample_src : string :=
  "package p" +:+ nl +:+ nl +:+
  "import (" +:+ nl +:+
  tab +:+ dquote +:+ "fmt" +:+ dquote +:+ nl +:+
  tab +:+ dquote +:+ "os" +:+ dquote +:+ nl +:+
  ")" +:+ nl +:+ nl +:+
  "func f() { fmt.Println() }" +:+ nl.

Definition import_fmt : ast_ImportSpec := mkImp None (dquote +:+ "fmt" +:+ dquote).
Definition import_os : ast_ImportSpec := mkImp None (dquote +:+ "os" +:+ dquote).

Definition sample_ast : ast_File := mkAst [[import_fmt; import_os]] ["fmt"].

(** An environment in which every outside call succeeds: [sample_src]
    parses to [sample_ast], any other text to a file without imports, and
    the formatter finds every text already formatted. *)
Definition demo_env : Env := {|
  os_MkdirAll_err := λ _ _, None;
  os_OpenFile_err := λ _ _, None;
  build_ImportDir_res := λ _ d, Ok ("example.com/" +:+ d);
  parser_ParseFile_res := λ _ c,
    if str_eqb c sample_src then Ok sample_ast else Ok (mkAst [] []);
  imports_Process_res := λ _ c, Ok c;
  build_Import_err := λ _ _ _, None;
  exec_LookPath_res := λ _ f, Ok ("/usr/bin/" +:+ f);
  os_Getenv_val := λ _, "/usr/bin";
  os_Getwd_res := λ _, Ok "/home/dev";
  ioutil_TempDir_res := λ _ d p, Ok (filepath_Join [d; p +:+ "123"]);
  runtime_GOOS := "linux";
  exec_CombinedOutput_res := λ _ _, ("gen/a.go" +:+ nl, None);
  pkg_Version := "v2.0.0";
  codegen_Header := λ title pkg _,
    mkSection string (λ d, (d, None)) ("package " +:+ pkg +:+ nl);
  mainTmpl := λ _, ("func main() {}" +:+ nl, None);
|}.

(** The same, but the Go compiler rejects the generated driver. *)
Definition broken_build_env : Env := {|
  os_MkdirAll_err := os_MkdirAll_err demo_env;
  os_OpenFile_err := os_OpenFile_err demo_env;
  build_ImportDir_res := build_ImportDir_res demo_env;
  parser_ParseFile_res := parser_ParseFile_res demo_env;
  imports_Process_res := imports_Process_res demo_env;
  build_Import_err := build_Import_err demo_env;
  exec_LookPath_res := exec_LookPath_res demo_env;
  os_Getenv_val := os_Getenv_val demo_env;
  os_Getwd_res := os_Getwd_res demo_env;
  ioutil_TempDir_res := ioutil_TempDir_res demo_env;
  runtime_GOOS := runtime_GOOS demo_env;
  exec_CombinedOutput_res := λ _ _, ("main.go:3: syntax error", Some "exit status 2");
  pkg_Version := pkg_Version demo_env;
  codegen_Header := codegen_Header demo_env;
  mainTmpl := mainTmpl demo_env;
|}.

(** The same as [demo_env], but the design package cannot be imported. *)
Definition no_design_env : Env := {|
  os_MkdirAll_err := os_MkdirAll_err demo_env;
  os_OpenFile_err := os_OpenFile_err demo_env;
  build_ImportDir_res := build_ImportDir_res demo_env;
  parser_ParseFile_res := parser_ParseFile_res demo_env;
  imports_Process_res := imports_Process_res demo_env;
  build_Import_err := λ _ path _, Some ("cannot find package " +:+ path);
  exec_LookPath_res := exec_LookPath_res demo_env;
  os_Getenv_val := os_Getenv_val demo_env;
  os_Getwd_res := os_Getwd_res demo_env;
  ioutil_TempDir_res := ioutil_TempDir_res demo_env;
  runtime_GOOS := runtime_GOOS demo_env;
  exec_CombinedOutput_res := exec_CombinedOutput_res demo_env;
  pkg_Version := pkg_Version demo_env;
  codegen_Header := codegen_Header demo_env;
  mainTmpl := mainTmpl demo_env;
|}.

Definition world0 : World := mkWorld ∅ ∅ [].

(** A file of one section with the given text, at a fixed relative path. *)
Definition text_file (rel text : string) : File :=
  mkFile (λ _, [mkSection string (λ d, (d, None)) text]) (λ _, rel).

(** A driver environment: the design evaluates, and the generator
    [Server] produces two files, [b.txt] before [a.txt]. *)
Definition demo_driver : DriverEnv := {|
  Root := unit;
  eval_Context_Errors := λ _, None;
  eval_RunDSL_err := λ _, None;
  eval_Context_Roots_res := λ _, Ok [tt];
  generator := λ name _ _,
    if str_eqb name "Server"
    then Ok [text_file "b.txt" "b"; text_file "a.txt" "a"]
    else Error ("no generator " +:+ name);
|}.

(** The main file of [goagen server design]. *)
Definition demo_main : mainFile := mkMainFile ["Server"] "design".

(** ** More observations *)

(** The processes started, in order. *)
Definition runs (t : list Event) : list Cmd :=
  omap (λ e, match e with ERun c => Some c | _ => None end) t.

(** What was printed to standard output, in order. *)
Definition stdouts (t : list Event) : list string :=
  omap (λ e, match e with EStdout m => Some m | _ => None end) t.

(** The calls the writer makes. *)
Definition is_writer_event (e : Event) : Prop :=
  match e with
  | EMkdirAll _ | EOpenFile _ | EImportDir _ | EExecute _ _
  | EParseFile _ | EProcess _ => True
  | _ => False
  end.

(** From [σ] to [σ'] only writer calls were made and no file but the one
    at [path] changed. *)
Definition touches (path : string) (σ σ' : World) : Prop :=
  (∃ t, w_trace σ' = w_trace σ ++ t ∧ Forall is_writer_event t) ∧
  (∀ q, q ≠ path → w_files σ' !! q = w_files σ !! q).

(** What the sections write, one after the other, up to and including the
    first one that fails, and the error of that one. *)
Fixpoint render (ss : list GoSection) : string * option error :=
  match ss with
  | [] => ("", None)
  | s :: rest =>
      match (Template s (Data s)).2 with
      | Some err => ((Template s (Data s)).1, Some err)
      | None => ((Template s (Data s)).1 +:+ (render rest).1, (render rest).2)
      end
  end.

(** The paths of the successful writes among the results of a session. *)
Definition ok_paths (rs : list (Result string)) : list string :=
  omap (λ r, match r with Ok p => Some p | Error _ => None end) rs.

(** Whether an import counts as used in a file with the selector
    qualifiers [sel]: the answer of [astutil.UsesImport] when the import is
    the one found for its path. *)
Definition used_import (sel : list string) (s : ast_ImportSpec) : bool :=
  match imp_Name s with
  | None => bool_decide (after_last_slash (importPath s) ∈ sel)
  | Some name =>
      if str_eqb name "_" then true
      else if str_eqb name "." then true
      else bool_decide (name ∈ sel)
  end.

(** A flag set that accepts every argument list and leaves the defaults. *)
Definition demo_flags (_ : list string) : FlagParse :=
  FlagsParsed (mkFlags "" "." false false false).

(** An import written so that cutting the quotes off its literal, as the
    loop of [formatCode] does, gives the path that the literal denotes, as
    astutil reads it: so it is for a double-quoted literal without
    escapes. *)
Definition plain_import (s : ast_ImportSpec) : Prop :=
  importPath s = strings_Trim (imp_Path_Value s) dquote.

(** What is left of a group of imports when the imports in [K] are kept:
    [delete_from_group] for a property. *)
Definition keep_group (K : ast_ImportSpec → Prop) `{!∀ x, Decision (K x)}
    (g : list ast_ImportSpec) : option (list ast_ImportSpec) :=
  match filter K g, g with
  | [], _ :: _ => None
  | g', _ => Some g'
  end.

(** The imports still in the tree once the loop of [formatCode] has gone
    over the imports [seen]: the used ones, and those whose path it has
    not come to yet. *)
Definition kept (sel : list string) (seen : list ast_ImportSpec)
    (s : ast_ImportSpec) : Prop :=
  used_import sel s = true ∨ importPath s ∉ (importPath <$> seen).

(** Each file of a session kept the contract of [OutputPath] when its turn
    came: the path it gave, joined with the session directory, was not in
    the registry handed to it.  [reg] is the registry before the first
    file; [rs] are the results of the writes. *)
Fixpoint honoured (dir : string) (reg : gset string) (files : list File)
    (rs : list (Result string)) : Prop :=
  match files, rs with
  | file :: files', r :: rs' =>
      let p := filepath_Join [dir; OutputPath file reg] in
      (p ∉ reg) ∧
      honoured dir (match r with Ok _ => {[p]} ∪ reg | Error _ => reg end)
               files' rs'
  | _, _ => True
  end.

(** What [generate] has in hand when it gets as far as staging: the Go
    compiler [exec.LookPath] found and the workspace [ioutil.TempDir]
    created. *)
Definition generate_staging (E : Env) (path : string) (σ : World)
  : option (string * string) :=
  match build_Import_err E σ path ".",
        exec_LookPath_res E (after_Import path σ) "go",
        ioutil_TempDir_res E (after_Getwd path σ) (generate_wd E path σ)
          "goagen" with
  | None, Ok gobin, Ok tmpDir => Some (gobin, tmpDir)
  | _, _, _ => None
  end.

(** The two processes of [generate]: the Go compiler building the driver
    in the workspace, and the driver. *)
Definition generate_processes (E : Env) (gobin tmpDir output : string)
  : list Cmd :=
  let out := if str_eqb (runtime_GOOS E) "windows"
             then "goagen" +:+ ".exe" else "goagen" in
  [ mkCmd gobin [gobin; "build"; "-o"; out] tmpDir;
    mkCmd (filepath_Join [tmpDir; out])
          [filepath_Join [tmpDir; out]; "--version=" +:+ pkg_Version E;
           "--output=" +:+ output] "" ].

(** A call prints nothing to standard output, and either returns or exits
    with status 1 right after a message on standard error. *)
Definition fails_loudly {A} (m : M A) : Prop :=
  ∀ σ, ∃ o σ', m σ = (o, σ') ∧
    stdouts (w_trace σ') = stdouts (w_trace σ) ∧
    ((∃ a, o = Ret a) ∨
     (o = Exit 1 ∧ ∃ msg, last (w_trace σ') = Some (EStderr msg))).

(** A call either returns, its last act being the one thing it printed to
    standard output, or exits with status 1, its last act being a message
    on standard error, and has printed nothing to standard output. *)
Definition prints_or_fails (m : M unit) : Prop :=
  ∀ σ, ∃ o σ', m σ = (o, σ') ∧
    ((o = Ret tt ∧
      ∃ t listing, w_trace σ' = t ++ [EStdout listing] ∧
        stdouts t = stdouts (w_trace σ)) ∨
     (o = Exit 1 ∧
      stdouts (w_trace σ') = stdouts (w_trace σ) ∧
      ∃ msg, last (w_trace σ') = Some (EStderr msg))).

(** The generators that were called, in order. *)
Definition generator_calls (t : list Event) : list string :=
  omap (λ e, match e with EGenerator g => Some g | _ => None end) t.

(** What a section writes, and whether it does so without error. *)
Definition section_text (s : GoSection) : string := (Template s (Data s)).1.
Definition section_ok (s : GoSection) : Prop := (Template s (Data s)).2 = None.

(** What the sections write, one after the other. *)
Definition text_of (ss : list GoSection) : string :=
  foldr (λ s acc, section_text s +:+ acc) "" ss.

(** Two outcomes of [fset.Parse] that differ at most in the scaffold
    flags [-s] and [-scaffold]. *)
Definition same_but_scaffold (a b : FlagParse) : Prop :=
  match a, b with
  | FlagsParsed f, FlagsParsed g =>
      flag_o f = flag_o g ∧ flag_output f = flag_output g ∧
      flag_debug f = flag_debug g
  | FlagsFailed p, FlagsFailed q => p = q
  | _, _ => False
  end.

(** ** examples/account/gen/transport: the HTTP handlers of the account
       service *)

(** The values handed around as [interface{}]: payloads and responses.
    Of [*services.AccountCreated] and [*services.AccountAccepted] the
    handlers read [Href] only; the pointers are taken not to be nil. *)
Inductive Value : Type :=
| VNil
| VAccountCreated (Href : string)
| VAccountAccepted (Href : string)
| VOther (tag : string).

(** An [*http.Request]: the parameters the router left in its context,
    and the rest. *)
Record Request := mkRequest {
  req_params : gmap string string;
  req_data : string;
}.

(** The calls a handler makes on what it was built from. *)
Inductive HEvent : Type :=
| HDecode
| HEndpoint (service action : string) (payload : Value)
| HEncode (v : Value)
| HEncodeError (err : error).

(** An [http.ResponseWriter] as the handlers use it, and the calls made so
    far: the header map, the status of the first [WriteHeader]. *)
Record Http := mkHttp {
  h_header : gmap string string;
  h_status : option Z;
  h_log : list HEvent;
}.

(** The part of the response a callee that is handed [w] can change. *)
Record ResponseWriter := mkRW {
  rw_header : gmap string string;
  rw_status : option Z;
}.

(** What the constructors of the handlers are given, and the functions of
    the package that live in its other files.  The encoder and the error
    encoder are handed the response writer: they return, having changed the
    header map and the status as they like. *)
Record Deps : Type := mkDeps {
  Body : Type;
  decoder : Request → Body * option error;
  encoder : Request → Value → ResponseWriter → option error * ResponseWriter;
  error_encoder : Request → error → ResponseWriter → ResponseWriter;
  endpoint : string → string → Value → Value * option error;
  newCreateAccountPayload : Body → Value * option error;
  newShowAccountPayload : string → Value * option error;
  newDeleteAccountPayload : string → Value * option error;
  ResponseContentType : Request → string;
}.

Definition io_EOF : error := "EOF".

Definition H (A : Type) : Type := Http → A * Http.

#[global] Instance H_ret : MRet H := λ A a h, (a, h).
#[global] Instance H_bind : MBind H :=
  λ A B k m h, let r := m h in k r.1 r.2.

Definition hlog (e : HEvent) : H unit :=
  λ h, (tt, mkHttp (h_header h) (h_status h) (h_log h ++ [e])).

(** A call that is handed [w]. *)
Definition on_writer {A} (f : ResponseWriter → A * ResponseWriter) : H A :=
  λ h, let r := f (mkRW (h_header h) (h_status h)) in
       (r.1, mkHttp (rw_header r.2) (rw_status r.2) (h_log h)).

(** [w.Header().Set(key, value)]. *)
Definition Header_Set (key value : string) : H unit :=
  λ h, (tt, mkHttp (<[key := value]> (h_header h)) (h_status h) (h_log h)).

(** [w.WriteHeader(code)]: the first call sets the status. *)
Definition WriteHeader (code : Z) : H unit :=
  λ h, (tt, mkHttp (h_header h)
                   (match h_status h with
                    | None => Some code
                    | Some c => Some c
                    end)
                   (h_log h)).

Section Transport.
Context (T : Deps).

(** [handler(w, r, logger).Encode(err)]; what [Encode] returns is
    dropped. *)
Definition encode_error (r : Request) (err : error) : H unit :=
  hlog (HEncodeError err);;
  on_writer (λ w, (tt, error_encoder T r err w)).

(** [endpoint(goa.NewContext(r.Context(), service, action), payload)]. *)
Definition call_endpoint (service action : string) (payload : Value)
  : H (Value * option error) :=
  hlog (HEndpoint service action payload);;
  mret (endpoint T service action payload).

(** [encoder(w, r).Encode(v)]. *)
Definition call_encoder (r : Request) (v : Value) : H (option error) :=
  hlog (HEncode v);; on_writer (encoder T r v).

(** [CreateAccountDecoderFunc(decoder)], applied to a request. *)
Definition CreateAccountDecoderFunc (r : Request) : H (Value * option error) :=
  hlog HDecode;;
  let d := decoder T r in
  match d.2 with
  | Some err =>
      let err := if str_eqb err io_EOF then "Request Body Empty" else err in
      mret (VNil, Some err)
  | None => mret (newCreateAccountPayload T d.1)
  end.

(** [CreateAccountEncoderFunc(encoder)], applied. *)
Definition CreateAccountEncoderFunc (r : Request) (v : Value)
  : H (option error) :=
  Header_Set "Content-Type" (ResponseContentType T r);;
  match v with
  | VAccountCreated href =>
      Header_Set "Location" href;;
      WriteHeader 201;;
      call_encoder r v;;
      mret None
  | VAccountAccepted href =>
      Header_Set "Location" href;;
      WriteHeader 202;;
      mret None
  | _ => mret (Some "invalid response type")
  end.

(** The handler of [NewCreateAccountHTTPHandler]. *)
Definition CreateAccountHTTPHandler (r : Request) : H unit :=
  d ← CreateAccountDecoderFunc r;
  match d.2 with
  | Some err => encode_error r err
  | None =>
      e ← call_endpoint "account" "show" d.1;
      match e.2 with
      | Some err => encode_error r err
      | None =>
          enc ← CreateAccountEncoderFunc r e.1;
          match enc with
          | Some err => encode_error r err
          | None => mret tt
          end
      end
  end.

(** [ListAccountEncoderFunc(encoder)] and [ShowAccountEncoderFunc(encoder)],
    applied: the two functions have the same body. *)
Definition ListAccountEncoderFunc (r : Request) (v : Value) : H (option error) :=
  Header_Set "Content-Type" (ResponseContentType T r);;
  WriteHeader 200;;
  call_encoder r v.

Definition ShowAccountEncoderFunc (r : Request) (v : Value) : H (option error) :=
  Header_Set "Content-Type" (ResponseContentType T r);;
  WriteHeader 200;;
  call_encoder r v.

(** The handler of [NewListAccountHTTPHandler]. *)
Definition ListAccountHTTPHandler (r : Request) : H unit :=
  e ← call_endpoint "account" "list" VNil;
  match e.2 with
  | Some err => encode_error r err
  | None =>
      enc ← ListAccountEncoderFunc r e.1;
      match enc with
      | Some err => encode_error r err
      | None => mret tt
      end
  end.

(** [ShowAccountDecoderFunc(decoder)], applied: [params["id"]] is empty
    when the router left no such parameter. *)
Definition ShowAccountDecoderFunc (r : Request) : H (Value * option error) :=
  let id := default "" (req_params r !! "id") in
  mret (newShowAccountPayload T id).

(** The handler of [NewShowAccountHTTPHandler]: after a decoding error
    has been encoded the handler goes on. *)
Definition ShowAccountHTTPHandler (r : Request) : H unit :=
  d ← ShowAccountDecoderFunc r;
  match d.2 with
  | Some err => encode_error r err
  | None => mret tt
  end;;
  e ← call_endpoint "account" "show" d.1;
  match e.2 with
  | Some err => encode_error r err
  | None =>
      enc ← ShowAccountEncoderFunc r e.1;
      match enc with
      | Some err => encode_error r err
      | None => mret tt
      end
  end.

(** [DeleteAccountDecoderFunc(decoder)], applied. *)
Definition DeleteAccountDecoderFunc (r : Request) : H (Value * option error) :=
  let id := default "" (req_params r !! "id") in
  mret (newDeleteAccountPayload T id).

(** [DeleteAccountEncoderFunc(encoder)], applied. *)
Definition DeleteAccountEncoderFunc (r : Request) (v : Value)
  : H (option error) :=
  WriteHeader 204;; mret None.

(** The handler of [NewDeleteAccountHTTPHandler]. *)
Definition DeleteAccountHTTPHandler (r : Request) : H unit :=
  d ← DeleteAccountDecoderFunc r;
  match d.2 with
  | Some err => encode_error r err
  | None => mret tt
  end;;
  e ← call_endpoint "account" "delete" d.1;
  match e.2 with
  | Some err => encode_error r err
  | None =>
      enc ← DeleteAccountEncoderFunc r e.1;
      match enc with
      | Some err => encode_error r err
      | None => mret tt
      end
  end.
End Transport.

(** The calls to the endpoint and to the error encoder in a log. *)
Definition endpoint_calls (l : list HEvent) : list (string * string * Value) :=
  omap (λ e, match e with
             | HEndpoint s a p => Some (s, a, p)
             | _ => None
             end) l.
Definition encoded_errors (l : list HEvent) : list error :=
  omap (λ e, match e with HEncodeError err => Some err | _ => None end) l.
Definition encoded_values (l : list HEvent) : list Value :=
  omap (λ e, match e with HEncode v => Some v | _ => None end) l.

Definition http0 : Http := mkHttp ∅ None [].

(** Sample dependencies: an empty request body, payloads that need an id,
    an endpoint that fails on the nil payload. *)
Definition demo_deps : Deps := {|
  Body := string;
  decoder := λ r, if str_eqb (req_data r) "" then ("", Some io_EOF)
                  else (req_data r, None);
  encoder := λ _ _ w, (None, w);
  error_encoder := λ _ _ w,
    mkRW (rw_header w) (Some (default 400 (rw_status w)));
  endpoint := λ _ _ p,
    match p with
    | VNil => (VNil, Some "missing payload")
    | _ => (VAccountCreated "/accounts/1", None)
    end;
  newCreateAccountPayload := λ b, (VOther b, None);
  newShowAccountPayload := λ id,
    if str_eqb id "" then (VNil, Some "missing id") else (VOther id, None);
  newDeleteAccountPayload := λ id,
    if str_eqb id "" then (VNil, Some "missing id") else (VOther id, None);
  ResponseContentType := λ _, "application/json";
|}.

(** ** Proof tools *)

Ltac unfold_calls :=
  unfold os_MkdirAll, os_OpenFile, file_Write, ioutil_ReadFile,
    build_ImportDir, parser_ParseFile, imports_Process, build_Import,
    exec_LookPath, os_Getwd, ioutil_TempDir, os_RemoveAll, remove_below,
    Cmd_CombinedOutput, mbind, mret, M_bind, M_ret, bind, ret, emit, ask,
    set_file, add_dir, log in *.

(** ** The writer: every call returns; what it does to the world *)

Lemma resolutions_snoc t e :
  resolutions (t ++ [e]) =
  resolutions t ++ match e with EImportDir d => [d] | _ => [] end.
Proof. unfold resolutions. rewrite omap_app. simpl. by destruct e. Qed.

Ltac close_grows :=
  eexists _, _; split; [reflexivity |]; split; simpl;
  [set_solver | by rewrite ?resolutions_snoc, ?app_nil_r].

Lemma grows_refl σ : grows [] σ σ.
Proof. split; [done | by rewrite app_nil_r]. Qed.

Lemma grows_trans ds1 ds2 σ1 σ2 σ3 :
  grows ds1 σ1 σ2 → grows ds2 σ2 σ3 → grows (ds1 ++ ds2) σ1 σ3.
Proof.
  intros [Hd1 Ht1] [Hd2 Ht2]. split; [set_solver |].
  by rewrite Ht2, Ht1, app_assoc.
Qed.

Lemma Section_Write_grows s path σ :
  ∃ r σ', Section_Write s path σ = (Ret r, σ') ∧ grows [] σ σ'.
Proof.
  unfold Section_Write. destruct (Template s (Data s)) as [out err].
  unfold_calls. simpl. close_grows.
Qed.

Lemma write_sections_grows ss path σ :
  ∃ r σ', write_sections ss path σ = (Ret r, σ') ∧ grows [] σ σ'.
Proof.
  revert σ. induction ss as [| s ss IH]; intros σ; simpl.
  - eexists _, _. split; [done | apply grows_refl].
  - destruct (Section_Write_grows s path σ) as (r & σ1 & Hs & Hg).
    unfold mbind, M_bind, bind. rewrite Hs. destruct r as [err |].
    + eexists _, _. split; [done | done].
    + destruct (IH σ1) as (r' & σ2 & Hw & Hg').
      eexists _, _. split; [exact Hw |].
      apply (grows_trans [] [] _ _ _ Hg Hg').
Qed.

Lemma formatCode_grows E path σ :
  ∃ r σ', formatCode E path σ = (Ret r, σ') ∧ grows [] σ σ'.
Proof.
  unfold formatCode. unfold_calls. simpl.
  repeat (case_match; simplify_eq/=); close_grows.
Qed.

(** [Write] always returns.  Either it succeeds, registers the joined path
    and has resolved the import path of [Dir] once, or it fails and hands
    the writer back as it was. *)
Lemma Write_spec E w file σ :
  let path := filepath_Join [Dir w; OutputPath file (Files w)] in
  ∃ r σ', Write E w file σ = (Ret r, σ') ∧
    ((r = (mkWriter (Dir w) ({[path]} ∪ Files w), Ok path) ∧
      grows [Dir w] σ σ') ∨
     (∃ err, r = (w, Error err) ∧ (grows [] σ σ' ∨ grows [Dir w] σ σ'))).
Proof.
  intros path. unfold Write. fold path.
  unfold mbind, M_bind, bind.
  unfold os_MkdirAll, os_OpenFile, build_ImportDir.
  unfold_calls. simpl.
  destruct (os_MkdirAll_err E σ (filepath_Dir path)) as [err |]; simpl.
  { eexists _, _. split; [done |]. right. eexists. split; [done |]. left.
    split; simpl; [done | by rewrite resolutions_snoc, app_nil_r]. }
  match goal with |- context [os_OpenFile_err E ?s path] =>
    destruct (os_OpenFile_err E s path) as [err |]; simpl end.
  { eexists _, _. split; [done |]. right. eexists. split; [done |]. left.
    split; simpl; [set_solver | by rewrite !resolutions_snoc, !app_nil_r]. }
  match goal with |- context [build_ImportDir_res E ?s (Dir w)] =>
    destruct (build_ImportDir_res E s (Dir w)) as [genPkg | err]; simpl end.
  2:{ eexists _, _. split; [done |]. right. eexists. split; [done |]. right.
      split; simpl; [set_solver | by rewrite !resolutions_snoc, !app_nil_r]. }
  match goal with |- context [write_sections ?ss path ?s] =>
    destruct (write_sections_grows ss path s) as (r1 & σ1 & Hw & Hg1);
    rewrite Hw end.
  assert (grows [Dir w] σ σ1) as Hσ1.
  { destruct Hg1 as [Hd Ht]. simpl in *. split; [set_solver |].
    rewrite Ht, !resolutions_snoc. by rewrite !app_nil_r. }
  destruct r1 as [err |].
  { eexists _, _. split; [done |]. right. eauto. }
  destruct (str_eqb (filepath_Ext path) ".go").
  - destruct (formatCode_grows E path σ1) as (r2 & σ2 & Hf & Hg2).
    rewrite Hf.
    pose proof (grows_trans _ _ _ _ _ Hσ1 Hg2) as Hσ2. simpl in Hσ2.
    destruct r2 as [err |]; eexists _, _; (split; [done |]); eauto.
  - eexists _, _. split; [done |]. eauto.
Qed.

(** C6. Whatever the environment, [Writer.Write] returns; when it returns
    an error the registry of the writer is what it was, and when it
    succeeds the path computed from [Dir] and [OutputPath] is returned and
    has been added to the registry. *)
Theorem Write_registry (E : Env) (w : Writer) (file : File) (σ : World) :
  ∃ w' r σ', Write E w file σ = (Ret (w', r), σ') ∧
    Dir w' = Dir w ∧
    match r with
    | Error _ => Files w' = Files w
    | Ok p =>
        p = filepath_Join [Dir w; OutputPath file (Files w)] ∧
        Files w' = {[p]} ∪ Files w
    end.
Proof.
  destruct (Write_spec E w file σ) as ([w' r] & σ' & Hw & Hcase).
  exists w', r, σ'. split; [exact Hw |].
  destruct Hcase as [[Heq _] | (err & Heq & _)]; simplify_eq; done.
Qed.

(** ** Sessions *)

(** A session always returns, with one result for each file; each
    successful write resolved the import path of the session directory, and
    every registered path is the join of the session directory with what
    some file of the session gave as its output path. *)
Lemma write_session_spec E files : ∀ w σ,
  ∃ w' rs σ', write_session E w files σ = (Ret (w', rs), σ') ∧
    Dir w' = Dir w ∧
    length rs = length files ∧
    (Forall is_Ok rs →
       resolutions (w_trace σ') =
       resolutions (w_trace σ) ++ replicate (length files) (Dir w)) ∧
    (∀ p, p ∈ Files w' →
       p ∈ Files w ∨
       ∃ file reserved, file ∈ files ∧
         p = filepath_Join [Dir w; OutputPath file reserved]).
Proof.
  induction files as [| file rest IH]; intros w σ; simpl.
  - exists w, [], σ. split; [done |]. split; [done |]. split; [done |].
    split; [by rewrite app_nil_r | auto].
  - destruct (Write_spec E w file σ) as ([w1 r1] & σ1 & Hw & Hcase).
    destruct (IH w1 σ1) as (w' & rs & σ' & Hs & Hdir & Hlen & Hres & Hreg).
    unfold mbind, M_bind, bind. rewrite Hw. simpl. rewrite Hs. simpl.
    exists w', (r1 :: rs), σ'. split; [done |].
    assert (Dir w1 = Dir w) as Hd1.
    { destruct Hcase as [[Heq _] | (err & Heq & _)]; by simplify_eq. }
    split; [congruence |]. split; [simpl; congruence |]. split.
    + intros Hok. apply Forall_cons in Hok as [Hok1 Hoks].
      destruct Hcase as [[Heq [_ Hg]] | (err & Heq & _)]; simplify_eq;
        [| done].
      rewrite (Hres Hoks), Hg. simpl. by rewrite <- app_assoc.
    + intros p Hp. destruct (Hreg p Hp) as [Hin | (f & reserved & Hf & ->)].
      * destruct Hcase as [[Heq _] | (err & Heq & _)]; simplify_eq;
          [| by left].
        simpl in Hin. apply elem_of_union in Hin as [Hin | Hin]; [| by left].
        apply elem_of_singleton in Hin as ->.
        right. exists file, (Files w). split; [apply list_elem_of_here | done].
      * right. exists f, reserved. rewrite Hd1.
        split; [by apply list_elem_of_further | done].
Qed.

(** C4, as stated, fails: two files written through one session make the
    writer resolve the import path of the session directory twice. *)
Lemma session_resolves_per_write :
  ∃ w' σ',
    write_session demo_env (NewWriter "out")
      [text_file "a.txt" "a"; text_file "b.txt" "b"] world0
    = (Ret (w', [Ok "out/a.txt"; Ok "out/b.txt"]), σ') ∧
    resolutions (w_trace σ') = ["out"; "out"].
Proof. eexists _, _. split; vm_compute; reflexivity. Qed.

(** C4, amended. Nothing is cached: every successful [Write] resolves the
    import path of the session directory anew, so a session of k
    successful writes performs k resolutions, all of [Dir]. *)
Theorem session_resolves_every_write (E : Env) (w : Writer)
    (files : list File) (σ σ' : World) (w' : Writer)
    (rs : list (Result string)) :
  write_session E w files σ = (Ret (w', rs), σ') →
  Forall is_Ok rs →
  resolutions (w_trace σ') =
  resolutions (w_trace σ) ++ replicate (length files) (Dir w).
Proof.
  intros Hs Hok.
  destruct (write_session_spec E files w σ)
    as (w2 & rs2 & σ2 & Hs2 & _ & _ & Hres & _).
  rewrite Hs in Hs2. simplify_eq. auto.
Qed.

Lemma session_resolves_every_write_witness :
  resolutions (w_trace (write_session demo_env (NewWriter "out")
      [text_file "a.txt" "a"; text_file "b.txt" "b"] world0).2) =
  resolutions (w_trace world0) ++ replicate 2 "out".
Proof.
  eapply (session_resolves_every_write demo_env (NewWriter "out")
            [text_file "a.txt" "a"; text_file "b.txt" "b"] world0).
  - vm_compute. reflexivity.
  - vm_compute. repeat constructor.
Defined.

(** C10, as stated, fails: a session in the directory [.] registers the
    main file under [main.go], the very path [OutputPath] returns, so the
    reserved set handed to the next [OutputPath] holds that relative
    path. *)
Lemma registry_holds_relative_path :
  ∃ w' σ',
    Write demo_env (NewWriter ".") (mainFile_File demo_env demo_main) world0
    = (Ret (w', Ok "main.go"), σ') ∧
    OutputPath (mainFile_File demo_env demo_main) ∅ = "main.go" ∧
    OutputPath (mainFile_File demo_env demo_main) ∅ ∈ Files w'.
Proof.
  eexists _, _. split; [vm_compute; reflexivity |]. split; [done |].
  simpl. set_solver.
Qed.

(** C10, amended. In a session started by [NewWriter dir], every key of
    the registry is [filepath.Join(dir, p)] for the relative path [p] that
    [OutputPath] of a file of the session returned; the reserved set
    handed to [OutputPath] holds such joined paths only. *)
Theorem registry_keys_joined (E : Env) (dir : string) (files : list File)
    (σ σ' : World) (w' : Writer) (rs : list (Result string)) (p : string) :
  write_session E (NewWriter dir) files σ = (Ret (w', rs), σ') →
  p ∈ Files w' →
  ∃ file reserved, file ∈ files ∧
    p = filepath_Join [dir; OutputPath file reserved].
Proof.
  intros Hs Hp.
  destruct (write_session_spec E files (NewWriter dir) σ)
    as (w2 & rs2 & σ2 & Hs2 & _ & _ & _ & Hreg).
  rewrite Hs in Hs2. simplify_eq.
  destruct (Hreg p Hp) as [Hin | Hex]; [| exact Hex].
  simpl in Hin. set_solver.
Qed.

Lemma registry_keys_joined_witness :
  ∃ file reserved, file ∈ [text_file "a.txt" "a"] ∧
    "out/a.txt" = filepath_Join ["out"; OutputPath file reserved].
Proof.
  eapply (registry_keys_joined demo_env "out" [text_file "a.txt" "a"] world0).
  - vm_compute. reflexivity.
  - apply (bool_decide_unpack _). vm_compute. reflexivity.
Defined.

(** C2. Two main files written through one session in the directory [.]
    both succeed and both return [main.go]: the second [OutputPath] is
    handed the registry that holds [main.go] and returns a key of it. *)
Theorem main_file_written_twice :
  ∃ w1 σ1 w2 σ2,
    Write demo_env (NewWriter ".") (mainFile_File demo_env demo_main) world0
    = (Ret (w1, Ok "main.go"), σ1) ∧
    Write demo_env w1 (mainFile_File demo_env demo_main) σ1
    = (Ret (w2, Ok "main.go"), σ2) ∧
    OutputPath (mainFile_File demo_env demo_main) (Files w1) ∈ Files w1.
Proof.
  eexists _, _, _, _. split; [vm_compute; reflexivity |].
  split; [vm_compute; reflexivity |].
  apply (bool_decide_unpack _). vm_compute. reflexivity.
Qed.

(** What [formatCode] writes back is the formatter's output for the bytes
    it read from the file; the tree it pruned plays no part in it. *)
Lemma formatCode_writes_back E path σ c file b :
  w_files σ !! path = Some c →
  parser_ParseFile_res E path c = Ok file →
  imports_Process_res E path c = Ok b →
  ∃ r σ', formatCode E path σ = (Ret r, σ') ∧
    (r = None → w_files σ' !! path = Some b).
Proof.
  intros Hc Hp Hb. unfold formatCode. unfold_calls. simpl.
  rewrite Hc. simpl. rewrite Hp. simpl. rewrite Hc, Hb. simpl.
  match goal with |- context [os_OpenFile_err E ?s path] =>
    destruct (os_OpenFile_err E s path) as [err |]; simpl end.
  - eexists _, _. split; [reflexivity | intros; discriminate].
  - eexists _, _. split; [reflexivity |]. intros _. simpl.
    rewrite lookup_insert_eq. simpl. by rewrite lookup_insert_eq.
Qed.

(** C1. The file [p.go] declares the imports [fmt] and [os] and uses
    [fmt] only.  [formatCode] succeeds; the loop leaves the single import
    [fmt] in the tree, yet the file written back still declares both
    imports, [os] being used nowhere in it. *)
Theorem formatCode_keeps_unused_import :
  ∃ σ',
    formatCode demo_env "p.go" (mkWorld {["p.go" := sample_src]} ∅ [])
    = (Ret None, σ') ∧
    concat (astutil_Imports (prune_imports sample_ast)) = [import_fmt] ∧
    w_files σ' !! "p.go" = Some sample_src ∧
    parser_ParseFile_res demo_env "p.go" sample_src = Ok sample_ast ∧
    concat (astutil_Imports sample_ast) = [import_fmt; import_os] ∧
    astutil_UsesImport sample_ast "os" = false.
Proof.
  eexists. split; [vm_compute; reflexivity |].
  repeat split; vm_compute; reflexivity.
Qed.

(** ** Main: the mapping from commands to generators *)

Lemma maps_to_valid c g : maps_to c g → valid_command c.
Proof. unfold valid_command. destruct 1; set_solver. Qed.

(** The loop over valid commands fills the slots [i], [i+1], ... of
    [gens], in order, with the generators the commands stand for. *)
Lemma Main_loop_valid commands : ∀ i gens,
  Forall valid_command commands →
  (i + length commands ≤ length gens)%nat →
  ∃ names, Forall2 maps_to commands names ∧
    Main_loop i commands gens =
    Ret (take i gens ++ names ++ drop (i + length commands) gens).
Proof.
  induction commands as [| c rest IH]; intros i gens Hv Hlen; simpl in *.
  - exists []. split; [constructor |].
    rewrite Nat.add_0_r. simpl. by rewrite take_drop.
  - apply Forall_cons in Hv as [Hc Hrest].
    assert (i < length gens)%nat as Hi by lia.
    assert (∃ g, maps_to c g ∧
              Main_loop i (c :: rest) gens =
              Main_loop (S i) rest (<[i := g]> gens)) as (g & Hg & Hstep).
    { unfold valid_command in Hc. simpl.
      apply elem_of_cons in Hc as [-> | Hc]; [eexists; split; [constructor | done] |].
      apply elem_of_cons in Hc as [-> | Hc]; [eexists; split; [constructor | done] |].
      apply elem_of_cons in Hc as [-> | Hc]; [eexists; split; [constructor | done] |].
      by apply elem_of_nil in Hc. }
    simpl in Hstep. rewrite Hstep.
    destruct (IH (S i) (<[i := g]> gens) Hrest) as (names & Hnames & Heq).
    { rewrite length_insert. lia. }
    exists (g :: names). split; [by constructor |].
    rewrite Heq. f_equal.
    rewrite (take_S_r _ _ g) by (by apply list_lookup_insert_eq).
    rewrite take_insert_ge by lia.
    rewrite drop_insert_lt by lia.
    rewrite <- app_assoc. simpl. by rewrite Nat.add_succ_r.
Qed.

(** The loop panics at the first command that is not one of the three. *)
Lemma Main_loop_invalid commands : ∀ i gens,
  ¬ Forall valid_command commands →
  ∃ c, c ∈ commands ∧ ¬ valid_command c ∧
    Main_loop i commands gens = Panic ("unknown command " +:+ c).
Proof.
  induction commands as [| c rest IH]; intros i gens Hnv.
  - destruct Hnv. constructor.
  - destruct (decide (valid_command c)) as [Hc | Hc].
    + assert (¬ Forall valid_command rest) as Hrest.
      { intros Hr. apply Hnv. by constructor. }
      assert (∃ g, Main_loop i (c :: rest) gens =
                   Main_loop (S i) rest (<[i := g]> gens)) as (g & Hstep).
      { unfold valid_command in Hc. simpl.
        apply elem_of_cons in Hc as [-> | Hc]; [by eexists |].
        apply elem_of_cons in Hc as [-> | Hc]; [by eexists |].
        apply elem_of_cons in Hc as [-> | Hc]; [by eexists |].
        by apply elem_of_nil in Hc. }
      destruct (IH (S i) (<[i := g]> gens) Hrest) as (c' & Hin & Hinv & Heq).
      exists c'. split; [by apply list_elem_of_further |]. split; [done |].
      by rewrite Hstep.
    + exists c. split; [apply list_elem_of_here |]. split; [done |].
      simpl. unfold valid_command in Hc. unfold str_eqb.
      repeat case_bool_decide; subst; try done; exfalso; apply Hc; set_solver.
Qed.

(** C9. [Main] maps the three command names to [Server], [Client] and
    [OpenAPI], in the order given, and keeps the design path; it panics
    exactly when some command is none of the three, naming such a command.
    Over valid commands the panic does not happen. *)
Theorem Main_closed_mapping (commands : list string) (designPath : string) :
  (Forall valid_command commands →
     ∃ gens, Forall2 maps_to commands gens ∧
       Main commands designPath = Ret (mkMainFile gens designPath)) ∧
  (¬ Forall valid_command commands →
     ∃ c, c ∈ commands ∧ ¬ valid_command c ∧
       Main commands designPath = Panic ("unknown command " +:+ c)).
Proof.
  unfold Main. split.
  - intros Hv.
    destruct (Main_loop_valid commands 0 (replicate (length commands) "") Hv)
      as (names & Hnames & Heq).
    { by rewrite length_replicate. }
    exists names. split; [done |]. rewrite Heq. simpl.
    rewrite drop_ge by (by rewrite length_replicate).
    by rewrite app_nil_r.
  - intros Hnv.
    destruct (Main_loop_invalid commands 0
                (replicate (length commands) "") Hnv)
      as (c & Hin & Hinv & Heq).
    exists c. by rewrite Heq.
Qed.

Lemma Main_closed_mapping_witness :
  (∃ gens, Forall2 maps_to ["openapi"; "server"; "client"] gens ∧
     Main ["openapi"; "server"; "client"] "design"
     = Ret (mkMainFile gens "design")) ∧
  (∃ c, c ∈ ["server"; "scaffold"] ∧ ¬ valid_command c ∧
     Main ["server"; "scaffold"] "design" = Panic ("unknown command " +:+ c)).
Proof.
  split.
  - apply (Main_closed_mapping ["openapi"; "server"; "client"] "design").
    unfold valid_command. repeat constructor; set_solver.
  - apply (Main_closed_mapping ["server"; "scaffold"] "design").
    intros Hv. apply Forall_cons in Hv as [_ Hv].
    apply Forall_cons in Hv as [Hv _].
    unfold valid_command in Hv.
    rewrite !elem_of_cons, elem_of_nil in Hv.
    destruct Hv as [Hv | [Hv | [Hv | []]]]; discriminate Hv.
Defined.

(** ** generate *)

(** C8. When the design package cannot be imported, [generate] returns
    that error at once: the world is what it was but for the one
    [build.Import] call in the trace, so no workspace was created, no file
    was written and no process was started. *)
Theorem generate_unresolvable_design (E : Env) (cmds : list string)
    (path output : string) (gens debug : bool) (σ : World) (err : error) :
  build_Import_err E σ path "." = Some err →
  generate E cmds path output gens debug σ
  = (Ret (Error err), log (EBuildImport path) σ).
Proof.
  intros Himp. unfold generate. unfold_calls. simpl. by rewrite Himp.
Qed.

Lemma generate_unresolvable_design_witness :
  generate no_design_env ["server"] "design" "." false false world0
  = (Ret (Error "cannot find package design"),
     log (EBuildImport "design") world0).
Proof.
  apply (generate_unresolvable_design no_design_env ["server"] "design" "."
           false false world0 "cannot find package design").
  reflexivity.
Defined.

Lemma Main_loop_no_exit commands : ∀ i gens code,
  Main_loop i commands gens ≠ Exit code.
Proof.
  induction commands as [| c rest IH]; intros i gens code; simpl; [done |].
  repeat case_match; auto; done.
Qed.

Lemma Main_no_exit commands designPath code :
  Main commands designPath ≠ Exit code.
Proof.
  unfold Main. intros H.
  destruct (Main_loop 0 commands (replicate (length commands) "")) eqn:Hl;
    simplify_eq.
  by apply Main_loop_no_exit in Hl.
Qed.

(** The staged part of [generate] returns or panics, it does not exit, and
    it removes no directory. *)
Lemma generate_staged_ends E cmds path output tmpDir gobin σ :
  ∃ o σ', generate_staged E cmds path output tmpDir gobin σ = (o, σ') ∧
    (∀ code, o ≠ Exit code) ∧ w_dirs σ ⊆ w_dirs σ'.
Proof.
  unfold generate_staged. unfold mbind, M_bind, bind.
  destruct (Main cmds path) as [m | code | msg] eqn:HM.
  - destruct (Write_spec E (NewWriter tmpDir) (mainFile_File E m) σ)
      as (r & σ1 & Hw & Hcase).
    rewrite Hw.
    assert (w_dirs σ ⊆ w_dirs σ1) as Hd.
    { destruct Hcase as [[_ [Hd _]] | (err & _ & [[Hd _] | [Hd _]])]; done. }
    destruct r as [w1 [p | err]]; simpl.
    + unfold_calls. simpl.
      repeat (case_match; simplify_eq/=);
        (eexists _, _; split; [reflexivity |]; split; [done | done]).
    + eexists _, _. split; [reflexivity |]. split; [done | done].
  - by apply Main_no_exit in HM.
  - eexists _, _. split; [reflexivity |]. split; [done | done].
Qed.

(** C3, as stated, fails: the compiler rejects the driver, [generate]
    returns the error, and without the debug flag the workspace it had
    created is removed all the same. *)
Lemma workspace_removed_on_failure :
  ∃ σ',
    generate broken_build_env ["server"] "design" "." false false world0
    = (Ret (Error "failed to compile generator: main.go:3: syntax error"), σ') ∧
    ETempDir "." "goagen" ∈ w_trace σ' ∧
    last (w_trace σ') = Some (ERemoveAll "goagen123") ∧
    "goagen123" ∉ w_dirs σ'.
Proof.
  eexists. split; [vm_compute; reflexivity |].
  split; [| split].
  - rewrite list_elem_of_In. simpl. tauto.
  - reflexivity.
  - apply (bool_decide_unpack _). vm_compute. reflexivity.
Qed.

(** C3, amended. Once [generate] has created its workspace, the workspace
    is there when [generate] ends exactly when the debug flag was given:
    without the flag it is removed however the run ends, with an error
    from the driver write, the compiler or the driver as well as with
    success; with the flag it is kept in every case. *)
Theorem workspace_kept_iff_debug (E : Env) (cmds : list string)
    (path output : string) (gens debug : bool) (σ : World)
    (tmpDir : string) :
  workspace_staged E path σ tmpDir →
  ∃ o σ', generate E cmds path output gens debug σ = (o, σ') ∧
    (∀ code, o ≠ Exit code) ∧
    (tmpDir ∈ w_dirs σ' ↔ debug = true).
Proof.
  intros (Himp & Hlook & Htmp).
  unfold generate_wd, after_Getwd, after_LookPath, after_Import in *.
  unfold generate. unfold_calls. simpl in *. rewrite Himp. simpl.
  destruct (exec_LookPath_res E _ "go") as [gobin | ?]; [| done]. simpl.
  rewrite Htmp. simpl.
  set (σ0 := mkWorld _ _ _).
  destruct (generate_staged_ends E cmds path output tmpDir gobin σ0)
    as (o & σ1 & Hg & Hne & Hd).
  simpl in Hd.
  destruct debug.
  - rewrite Hg. exists o, σ1. split; [done |]. split; [done |].
    split; [done |]. intros _. set_solver.
  - unfold defer. rewrite Hg.
    assert (tmpDir ∉ filter (λ q, below tmpDir q = false) (w_dirs σ1))
      as Hgone.
    { intros Hp. apply elem_of_filter in Hp as [Hb _].
      unfold below, str_eqb in Hb. by rewrite bool_decide_eq_true_2 in Hb. }
    destruct o as [r | code | msg]; [| by destruct (Hne code) |];
      (eexists _, _; split; [reflexivity |]; split; [done |]; simpl;
       split; [done | done]).
Qed.

Lemma workspace_kept_iff_debug_witness :
  ∃ o σ',
    generate broken_build_env ["server"] "design" "." false false world0
    = (o, σ') ∧
    (∀ code, o ≠ Exit code) ∧
    ("goagen123" ∈ w_dirs σ' ↔ false = true).
Proof.
  apply (workspace_kept_iff_debug broken_build_env ["server"] "design" "."
           false false world0 "goagen123").
  split; [reflexivity |]. split; [exact I | reflexivity].
Defined.

(** ** The driver *)

(** C5. Run with a version other than the one compiled in, the driver
    ends with exit status 1; all it has done by then is print one message
    to standard error: the design was not evaluated, no generator was
    called and no file was written. *)
Theorem driver_version_gate (E : Env) (D : DriverEnv) (gens : list string)
    (out version : string) (σ : World) :
  version ≠ pkg_Version E →
  ∃ msg, driver_main E D gens out version σ = (Exit 1, log (EStderr msg) σ).
Proof.
  intros Hv. unfold driver_main, fail. unfold_calls. unfold os_Exit, str_eqb.
  destruct (bool_decide (out = "")); simpl; [by eexists |].
  destruct (bool_decide (version = "")); simpl; [by eexists |].
  rewrite bool_decide_eq_false_2 by done. simpl. by eexists.
Qed.

Lemma driver_version_gate_witness :
  ∃ msg, driver_main demo_env demo_driver ["Server"] "out" "v1.9.0" world0
         = (Exit 1, log (EStderr msg) world0).
Proof.
  apply (driver_version_gate demo_env demo_driver ["Server"] "out" "v1.9.0"
           world0).
  discriminate.
Defined.

(** The loop of the driver over the files is a session: when it returns,
    every write succeeded, and the slots [i], [i+1], ... of [outputs] hold
    the paths the writes returned, in order. *)
Lemma write_files_session E files : ∀ w i outs σ outputs σ',
  write_files E w i files outs σ = (Ret outputs, σ') →
  (i + length files ≤ length outs)%nat →
  ∃ w' paths,
    write_session E w files σ = (Ret (w', Ok <$> paths), σ') ∧
    outputs = take i outs ++ paths ++ drop (i + length files) outs.
Proof.
  induction files as [| file rest IH]; intros w i outs σ outputs σ' Hw Hlen;
    simpl in *.
  - unfold mret, M_ret, ret in *. simplify_eq.
    exists w, []. split; [done |].
    rewrite Nat.add_0_r. simpl. by rewrite take_drop.
  - destruct (Write_spec E w file σ) as ([w1 r1] & σ1 & HW & _).
    unfold mbind, M_bind, bind in *. rewrite HW in *. simpl in *.
    destruct r1 as [f | err].
    + destruct (IH w1 (S i) (<[i := f]> outs) σ1 outputs σ' Hw)
        as (w' & paths & Hs & Hout).
      { rewrite length_insert. lia. }
      rewrite Hs. simpl. exists w', (f :: paths). split; [done |].
      rewrite Hout.
      rewrite (take_S_r _ _ f) by (apply list_lookup_insert_eq; lia).
      rewrite take_insert_ge by lia.
      rewrite drop_insert_lt by lia.
      rewrite <- app_assoc. simpl. by rewrite Nat.add_succ_r.
    + unfold fail, os_Exit in Hw. unfold_calls. simpl in Hw. done.
Qed.

(** The sample driver writes [b.txt] before [a.txt] and prints [a.txt]
    first. *)
Example demo_driver_output :
  last (w_trace
    (driver_main demo_env demo_driver ["Server"] "out" "v2.0.0" world0).2)
  = Some (EStdout ("out/a.txt" +:+ nl +:+ "out/b.txt" +:+ nl)) ∧
  resolutions (w_trace
    (driver_main demo_env demo_driver ["Server"] "out" "v2.0.0" world0).2)
  = ["out"; "out"].
Proof. split; vm_compute; reflexivity. Qed.

(** ** Further properties of the writer *)

Lemma str_app_nil_r (s : string) : s +:+ "" = s.
Proof.
  induction s as [| a s IH]; [done |].
  change (String a (s +:+ "") = String a s). by f_equal.
Qed.

Lemma str_app_assoc (a b c : string) : (a +:+ b) +:+ c = a +:+ (b +:+ c).
Proof.
  induction a as [| x a IH]; [done |].
  change (String x ((a +:+ b) +:+ c) = String x (a +:+ (b +:+ c))).
  by f_equal.
Qed.

Lemma touches_refl path σ : touches path σ σ.
Proof. split; [exists []; by rewrite app_nil_r | done]. Qed.

Lemma touches_trans path σ1 σ2 σ3 :
  touches path σ1 σ2 → touches path σ2 σ3 → touches path σ1 σ3.
Proof.
  intros [(t1 & Ht1 & Hf1) Hq1] [(t2 & Ht2 & Hf2) Hq2]. split.
  - exists (t1 ++ t2). rewrite Ht2, Ht1, app_assoc. split; [done |].
    by apply Forall_app.
  - intros q Hq. by rewrite Hq2, Hq1.
Qed.

Ltac close_touches :=
  split;
  [ eexists; simpl; rewrite <- ?app_assoc; split; [reflexivity |];
    repeat constructor
  | intros q Hq; simpl; by rewrite ?lookup_insert_ne ].

Lemma Section_Write_render s path σ old :
  w_files σ !! path = Some old →
  ∃ σ', Section_Write s path σ = (Ret (Template s (Data s)).2, σ') ∧
    w_files σ' !! path = Some (old +:+ (Template s (Data s)).1) ∧
    touches path σ σ'.
Proof.
  intros Hold. unfold Section_Write.
  destruct (Template s (Data s)) as [out err].
  unfold_calls. simpl. rewrite Hold. simpl.
  eexists. split; [reflexivity |]. simpl.
  split; [by rewrite lookup_insert_eq |]. close_touches.
Qed.

(** The sections are written in order, each after what the one before
    left in the file, and none after the first that fails. *)
Lemma write_sections_render ss path : ∀ σ old,
  w_files σ !! path = Some old →
  ∃ σ', write_sections ss path σ = (Ret (render ss).2, σ') ∧
    w_files σ' !! path = Some (old +:+ (render ss).1) ∧
    touches path σ σ'.
Proof.
  induction ss as [| s rest IH]; intros σ old Hold; simpl.
  - exists σ. split; [done |]. split; [| apply touches_refl].
    by rewrite Hold, str_app_nil_r.
  - destruct (Section_Write_render s path σ old Hold) as (σ1 & Hs & Hc & Ht).
    unfold mbind, M_bind, bind. rewrite Hs.
    destruct ((Template s (Data s)).2) as [err |]; simpl.
    + exists σ1. split; [done |]. split; [done | done].
    + destruct (IH σ1 _ Hc) as (σ2 & Hw & Hc2 & Ht2).
      exists σ2. split; [done |]. rewrite <- str_app_assoc.
      split; [done |]. by eapply touches_trans.
Qed.

(** What [formatCode] does to the files: on an error, nothing; on
    success, the file at [path], and no other, holds what the formatter
    made of its former content. *)
Lemma formatCode_files E path σ :
  ∃ r σ', formatCode E path σ = (Ret r, σ') ∧ touches path σ σ' ∧
    match r with
    | Some _ => w_files σ' = w_files σ
    | None =>
        ∃ c b, w_files σ !! path = Some c ∧
          imports_Process_res E path c = Ok b ∧
          w_files σ' = <[path := b]> (w_files σ)
    end.
Proof.
  unfold formatCode. unfold_calls. simpl.
  destruct (w_files σ !! path) as [c |] eqn:Hc; simpl.
  - destruct (parser_ParseFile_res E path c) as [file | err]; simpl.
    + rewrite Hc. simpl.
      destruct (imports_Process_res E path c) as [b | err] eqn:Hb; simpl.
      * match goal with |- context [os_OpenFile_err E ?s path] =>
          destruct (os_OpenFile_err E s path) as [err |]; simpl end.
        -- eexists _, _. split; [reflexivity |]. split; [close_touches | done].
        -- eexists _, _. split; [reflexivity |]. split; [close_touches |].
           exists c, b. split; [done |]. split; [done |]. simpl.
           rewrite lookup_insert_eq. simpl. by rewrite insert_insert_eq.
      * eexists _, _. split; [reflexivity |]. split; [close_touches | done].
    + rewrite Hc. eexists _, _. split; [reflexivity |].
      split; [close_touches | done].
  - eexists _, _. split; [reflexivity |]. split; [close_touches | done].
Qed.

(** What [Write] does to the world, whatever its result: only writer calls
    are made and only the file at the computed path changes; after a
    successful write that file holds what the sections rendered, run
    through the formatter when the path ends in [.go]. *)
Lemma Write_effects E w file σ :
  let path := filepath_Join [Dir w; OutputPath file (Files w)] in
  ∃ r σ', Write E w file σ = (Ret r, σ') ∧ touches path σ σ' ∧
    (is_Ok r.2 →
     ∃ genPkg,
       (render (Sections file genPkg)).2 = None ∧
       if str_eqb (filepath_Ext path) ".go"
       then ∃ b,
         imports_Process_res E path (render (Sections file genPkg)).1 = Ok b ∧
         w_files σ' !! path = Some b
       else w_files σ' !! path = Some (render (Sections file genPkg)).1).
Proof.
  intros path. unfold Write. fold path.
  unfold mbind, M_bind, bind.
  unfold os_MkdirAll, os_OpenFile, build_ImportDir.
  unfold_calls. simpl.
  destruct (os_MkdirAll_err E σ (filepath_Dir path)) as [err |]; simpl.
  { eexists _, _. split; [done |]. split; [close_touches | done]. }
  match goal with |- context [os_OpenFile_err E ?s path] =>
    destruct (os_OpenFile_err E s path) as [err |]; simpl end.
  { eexists _, _. split; [done |]. split; [close_touches | done]. }
  match goal with |- context [build_ImportDir_res E ?s (Dir w)] =>
    destruct (build_ImportDir_res E s (Dir w)) as [genPkg | err]; simpl end.
  2:{ eexists _, _. split; [done |]. split; [close_touches | done]. }
  match goal with |- context [write_sections ?ss path ?s] =>
    set (σ1 := s);
    destruct (write_sections_render ss path σ1 "")
      as (σ2 & Hw & Hc & Ht2) end.
  { subst σ1. simpl. by rewrite lookup_insert_eq. }
  rewrite Hw.
  assert (touches path σ σ1) as Ht1 by (subst σ1; close_touches).
  pose proof (touches_trans _ _ _ _ Ht1 Ht2) as Ht.
  change ("" +:+ ?x) with x in Hc.
  destruct ((render (Sections file genPkg)).2) as [err |] eqn:Hr.
  { eexists _, _. split; [done |]. split; [done | done]. }
  destruct (str_eqb (filepath_Ext path) ".go").
  - destruct (formatCode_files E path σ2) as (r & σ3 & Hf & Ht3 & Hfiles).
    rewrite Hf. destruct r as [err |].
    + eexists _, _. split; [done |].
      split; [by eapply touches_trans | done].
    + eexists _, _. split; [done |].
      split; [by eapply touches_trans |]. intros _.
      destruct Hfiles as (c & b & Hc' & Hb & Hfs).
      rewrite Hc in Hc'. simplify_eq.
      exists genPkg. split; [done |]. exists b. split; [done |].
      rewrite Hfs. by rewrite lookup_insert_eq.
  - eexists _, _. split; [done |]. split; [done |]. intros _.
    exists genPkg. by split.
Qed.

(** ** The loop of formatCode over the imports *)

Lemma filter_ext_in {A} (P Q : A → Prop) `{!∀ x, Decision (P x)}
    `{!∀ x, Decision (Q x)} (l : list A) :
  (∀ x, x ∈ l → (P x ↔ Q x)) → filter P l = filter Q l.
Proof.
  induction l as [| a l IH]; intros Hext; [done |].
  assert (filter P l = filter Q l) as Hl.
  { apply IH. intros x Hx. apply Hext. by apply list_elem_of_further. }
  destruct (decide (P a)) as [Hp | Hp].
  - rewrite (filter_cons_True P) by done.
    rewrite (filter_cons_True Q); [by rewrite Hl |].
    apply Hext; [apply list_elem_of_here | done].
  - rewrite (filter_cons_False P) by done.
    rewrite (filter_cons_False Q); [done |].
    intros Hq. apply Hp. apply Hext; [apply list_elem_of_here | done].
Qed.

Lemma filter_none {A} (P : A → Prop) `{!∀ x, Decision (P x)} (l : list A) :
  (∀ x, x ∈ l → ¬ P x) → filter P l = [].
Proof.
  intros Hno. destruct (filter P l) as [| x r] eqn:Hf; [done |].
  assert (x ∈ filter P l) as Hx by (rewrite Hf; apply list_elem_of_here).
  apply list_elem_of_filter in Hx as [Hp Hx]. by destruct (Hno x Hx).
Qed.

Lemma filter_all {A} (P : A → Prop) `{!∀ x, Decision (P x)} (l : list A) :
  (∀ x, x ∈ l → P x) → filter P l = l.
Proof.
  induction l as [| a l IH]; intros Hall; [done |].
  rewrite filter_cons_True by (apply Hall, list_elem_of_here).
  f_equal. apply IH. intros x Hx. by apply Hall, list_elem_of_further.
Qed.

Lemma omap_cons_eq {A B} (f : A → option B) (x : A) (l : list A) :
  omap f (x :: l)
  = match f x with Some y => y :: omap f l | None => omap f l end.
Proof. done. Qed.

Lemma keep_group_ext_in (P Q : ast_ImportSpec → Prop)
    `{!∀ x, Decision (P x)} `{!∀ x, Decision (Q x)} g :
  (∀ x, x ∈ g → (P x ↔ Q x)) → keep_group P g = keep_group Q g.
Proof.
  intros Hext. unfold keep_group. by rewrite (filter_ext_in P Q g Hext).
Qed.

Lemma keep_groups_ext_in (P Q : ast_ImportSpec → Prop)
    `{!∀ x, Decision (P x)} `{!∀ x, Decision (Q x)} gs :
  (∀ x, x ∈ concat gs → (P x ↔ Q x)) →
  omap (keep_group P) gs = omap (keep_group Q) gs.
Proof.
  induction gs as [| g gs IH]; intros Hext; [done |].
  rewrite !omap_cons_eq, (keep_group_ext_in P Q g).
  - rewrite IH; [done |]. intros x Hx. apply Hext. simpl.
    apply elem_of_app. by right.
  - intros x Hx. apply Hext. simpl. apply elem_of_app. by left.
Qed.

(** The imports of the groups that are left are the imports that are
    kept. *)
Lemma concat_keep_groups (P : ast_ImportSpec → Prop)
    `{!∀ x, Decision (P x)} gs :
  concat (omap (keep_group P) gs) = filter P (concat gs).
Proof.
  induction gs as [| g gs IH]; [done |].
  rewrite omap_cons_eq, concat_cons, filter_app, <- IH.
  unfold keep_group.
  destruct (filter P g) as [| x g'] eqn:Hf; destruct g as [| y g0]; done.
Qed.

(** Deleting twice is deleting once what either round deletes. *)
Lemma keep_group_twice (P Q : ast_ImportSpec → Prop)
    `{!∀ x, Decision (P x)} `{!∀ x, Decision (Q x)}
    (g : list ast_ImportSpec) :
  match keep_group Q g with
  | Some g1 => keep_group P g1
  | None => None
  end = keep_group (λ s, P s ∧ Q s) g.
Proof.
  assert (filter P (filter Q g) = filter (λ s, P s ∧ Q s) g) as Hff
    by apply list_filter_filter.
  unfold keep_group. rewrite <- Hff.
  destruct (filter Q g) as [| x g1] eqn:Hq; destruct g as [| y g0];
    try done; by destruct (filter P (x :: g1)).
Qed.

Lemma keep_groups_twice (P Q : ast_ImportSpec → Prop)
    `{!∀ x, Decision (P x)} `{!∀ x, Decision (Q x)}
    (gs : list (list ast_ImportSpec)) :
  omap (keep_group P) (omap (keep_group Q) gs)
  = omap (keep_group (λ s, P s ∧ Q s)) gs.
Proof.
  induction gs as [| g gs IH]; [done |].
  rewrite (omap_cons_eq (keep_group Q)), (omap_cons_eq (keep_group (λ s, _))).
  rewrite <- IH, <- (keep_group_twice P Q g).
  destruct (keep_group Q g) as [g1 |]; [| done].
  by rewrite omap_cons_eq.
Qed.

Lemma keep_groups_all (P : ast_ImportSpec → Prop)
    `{!∀ x, Decision (P x)} gs :
  (∀ x, x ∈ concat gs → P x) → omap (keep_group P) gs = gs.
Proof.
  induction gs as [| g gs IH]; intros Hall; [done |]. rewrite omap_cons_eq.
  assert (keep_group P g = Some g) as ->.
  { unfold keep_group. rewrite filter_all; [by destruct g |].
    intros x Hx. apply Hall. simpl. apply elem_of_app. by left. }
  f_equal. apply IH. intros x Hx. apply Hall. simpl.
  apply elem_of_app. by right.
Qed.

(** Among imports with pairwise distinct paths, the imports of the path of
    [imp] that a filter keeping [imp] leaves are [imp] alone. *)
Lemma filter_path_unique (K : ast_ImportSpec → Prop)
    `{!∀ x, Decision (K x)} (L : list ast_ImportSpec) (imp : ast_ImportSpec) :
  NoDup (importPath <$> L) → imp ∈ L → K imp →
  filter (λ s, importPath s = importPath imp) (filter K L) = [imp].
Proof.
  induction L as [| a L IH]; intros Hnd Hin HK.
  - by apply elem_of_nil in Hin.
  - rewrite fmap_cons in Hnd. apply NoDup_cons in Hnd as [Hna Hnd].
    apply elem_of_cons in Hin as [<- | Hin].
    + rewrite filter_cons_True by done.
      rewrite filter_cons_True by done. f_equal.
      apply filter_none. intros s Hs Heq.
      apply Hna. rewrite <- Heq. apply list_elem_of_fmap_2.
      by apply list_elem_of_filter in Hs as [_ Hs].
    + assert (importPath a ≠ importPath imp) as Hne.
      { intros Heq. apply Hna. rewrite Heq. by apply list_elem_of_fmap_2. }
      destruct (decide (K a)).
      * rewrite (filter_cons_True K) by done.
        rewrite filter_cons_False by done. by apply IH.
      * rewrite (filter_cons_False K) by done. by apply IH.
Qed.

Lemma delete_matches_path name path s :
  delete_matches name path s = true → importPath s = path.
Proof.
  unfold delete_matches, str_eqb.
  destruct (imp_Name s); intros [_ H]%andb_prop;
    by apply bool_decide_eq_true_1 in H.
Qed.

(** In a tree whose imports have pairwise distinct paths, after the
    deletion of imports other than [imp], [astutil.UsesImport] on the path
    of [imp] tells whether [imp] is used. *)
Lemma UsesImport_filtered (K : ast_ImportSpec → Prop)
    `{!∀ x, Decision (K x)} gs sel imp :
  NoDup (importPath <$> concat gs) → imp ∈ concat gs → K imp →
  astutil_UsesImport (mkAst (omap (keep_group K) gs) sel) (importPath imp)
  = used_import sel imp.
Proof.
  intros Hnd Hin HK. unfold astutil_UsesImport, importSpec. simpl.
  rewrite concat_keep_groups.
  rewrite (filter_path_unique K (concat gs) imp Hnd Hin HK). simpl.
  unfold used_import. by destruct (imp_Name imp).
Qed.

(** One round of the loop. *)
Lemma prune_import_round gs sel seen imp :
  NoDup (importPath <$> concat gs) → imp ∈ concat gs →
  importPath imp ∉ (importPath <$> seen) → plain_import imp →
  prune_import (mkAst (omap (keep_group (kept sel seen)) gs) sel) imp
  = mkAst (omap (keep_group (kept sel (seen ++ [imp]))) gs) sel.
Proof.
  intros Hnd Hin Hfresh Hplain.
  assert (∀ s, s ∈ concat gs → importPath s = importPath imp → s = imp)
    as Huniq.
  { intros s Hs Heq.
    apply list_elem_of_split in Hs as (l1 & l2 & Hl).
    rewrite Hl in Hin, Hnd.
    rewrite fmap_app, fmap_cons in Hnd.
    apply NoDup_app in Hnd as (_ & Hd & Hnd2).
    apply NoDup_cons in Hnd2 as [Hs2 _].
    apply elem_of_app in Hin as [Hin | Hin].
    - destruct (Hd (importPath imp)); [by apply list_elem_of_fmap_2 |].
      rewrite <- Heq. apply list_elem_of_here.
    - apply elem_of_cons in Hin as [-> | Hin]; [done |].
      destruct Hs2. rewrite Heq. by apply list_elem_of_fmap_2. }
  unfold prune_import. rewrite <- Hplain.
  rewrite (UsesImport_filtered _ gs sel imp Hnd Hin) by (by right).
  destruct (used_import sel imp) eqn:Hused.
  - f_equal. apply keep_groups_ext_in. intros s Hs. unfold kept.
    rewrite fmap_app, elem_of_app. simpl. rewrite list_elem_of_singleton.
    split; [| tauto]. intros [Hu | Hn]; [by left |].
    destruct (decide (importPath s = importPath imp)) as [Heq | Hne];
      [| right; tauto].
    left. by rewrite (Huniq s Hs Heq).
  - assert (∀ name,
      (imp_Name imp = Some name ∨ (imp_Name imp = None ∧ name = "")) →
      astutil_DeleteNamedImport
        (mkAst (omap (keep_group (kept sel seen)) gs) sel)
        name (importPath imp)
      = mkAst (omap (keep_group (kept sel (seen ++ [imp]))) gs) sel) as Hdel.
    { intros name Hname. unfold astutil_DeleteNamedImport. simpl. f_equal.
      change (delete_from_group (delete_matches name (importPath imp)))
        with (keep_group (λ s, delete_matches name (importPath imp) s = false)).
      rewrite keep_groups_twice.
      apply keep_groups_ext_in. intros s Hs. unfold kept.
      rewrite fmap_app, elem_of_app. simpl. rewrite list_elem_of_singleton.
      assert (delete_matches name (importPath imp) imp = true) as Hself.
      { unfold delete_matches, str_eqb.
        destruct Hname as [-> | [-> ->]];
          by rewrite !bool_decide_eq_true_2. }
      split.
      - intros [Hdm [Hu | Hn]]; [by left |]. right. intros [? | Heq]; [done |].
        rewrite (Huniq s Hs Heq) in Hdm. congruence.
      - intros Hk.
        assert (importPath s ≠ importPath imp) as Hne.
        { intros Heq. rewrite (Huniq s Hs Heq) in Hk.
          destruct Hk as [Hu | Hn]; [congruence | tauto]. }
        split.
        + destruct (delete_matches name (importPath imp) s) eqn:Hdm; [| done].
          by apply delete_matches_path in Hdm.
        + destruct Hk as [Hu | Hn]; [by left | right; tauto]. }
    destruct (imp_Name imp) as [name |] eqn:Hn.
    + apply Hdel. by left.
    + unfold astutil_DeleteImport. apply Hdel. by right.
Qed.

(** The loop over the imports not yet seen. *)
Lemma prune_imports_fold gs sel : ∀ rest seen,
  NoDup (importPath <$> concat gs) → Forall plain_import rest →
  seen ++ rest = concat gs →
  fold_left prune_import rest
    (mkAst (omap (keep_group (kept sel seen)) gs) sel)
  = mkAst (omap (keep_group (kept sel (seen ++ rest))) gs) sel.
Proof.
  induction rest as [| imp rest IH]; intros seen Hnd Hplain Hsplit; simpl.
  - by rewrite app_nil_r.
  - apply Forall_cons in Hplain as [Himp Hplain].
    rewrite prune_import_round; [| done | | | done].
    + rewrite IH; [| done | done | by rewrite <- app_assoc].
      by rewrite <- app_assoc.
    + rewrite <- Hsplit. apply elem_of_app. right. apply list_elem_of_here.
    + rewrite <- Hsplit, fmap_app, fmap_cons in Hnd.
      apply NoDup_app in Hnd as (_ & Hd & _). intros Hin.
      apply (Hd _ Hin). apply list_elem_of_here.
Qed.

Lemma UsesImport_distinct gs sel imp :
  NoDup (importPath <$> concat gs) → imp ∈ concat gs →
  astutil_UsesImport (mkAst gs sel) (importPath imp) = used_import sel imp.
Proof.
  intros Hnd Hin.
  rewrite <- (UsesImport_filtered (λ _, True) gs sel imp Hnd Hin I).
  by rewrite keep_groups_all.
Qed.

(** The tree after the loop, group by group: of every group the used
    imports are left, and a group that had imports, none of them used, is
    gone. *)
Lemma prune_imports_groups (f : ast_File) :
  NoDup (importPath <$> concat (ast_Imports f)) →
  Forall plain_import (concat (ast_Imports f)) →
  prune_imports f =
  mkAst (omap (keep_group (λ s, astutil_UsesImport f (importPath s) = true))
              (ast_Imports f))
        (ast_Selectors f).
Proof.
  intros Hnd Hplain. destruct f as [gs sel]. simpl in *.
  unfold prune_imports, astutil_Imports. simpl.
  assert (omap (keep_group (kept sel [])) gs = gs) as Hstart.
  { apply keep_groups_all. intros s _. right. simpl. apply not_elem_of_nil. }
  rewrite <- Hstart at 2.
  rewrite (prune_imports_fold gs sel (concat gs) []) by done.
  simpl. f_equal. apply keep_groups_ext_in. intros s Hs.
  rewrite (UsesImport_distinct gs sel s Hnd Hs). unfold kept.
  split; [| by left]. intros [Hu | Hn]; [done |].
  destruct Hn. by apply list_elem_of_fmap_2.
Qed.

(** X5. For a file whose imports have pairwise distinct paths and are
    written as plain double-quoted literals, the loop of [formatCode]
    leaves in the tree exactly the imports that [astutil.UsesImport]
    reports as used in the file, in their order; the selectors of the tree
    are as they were. *)
Theorem prune_imports_keeps_used (f : ast_File) :
  NoDup (importPath <$> concat (ast_Imports f)) →
  Forall plain_import (concat (ast_Imports f)) →
  ast_Selectors (prune_imports f) = ast_Selectors f ∧
  concat (ast_Imports (prune_imports f))
  = filter (λ s, astutil_UsesImport f (importPath s) = true)
           (concat (ast_Imports f)).
Proof.
  intros Hnd Hplain. rewrite (prune_imports_groups f Hnd Hplain). simpl.
  split; [done |]. apply concat_keep_groups.
Qed.

Lemma prune_imports_keeps_used_witness :
  ast_Selectors (prune_imports sample_ast) = ast_Selectors sample_ast ∧
  concat (ast_Imports (prune_imports sample_ast))
  = filter (λ s, astutil_UsesImport sample_ast (importPath s) = true)
           (concat (ast_Imports sample_ast)).
Proof.
  apply (prune_imports_keeps_used sample_ast).
  - apply (bool_decide_unpack _). vm_compute. reflexivity.
  - repeat constructor.
Defined.

(** An unused import written as a raw string is not deleted: the loop
    asks astutil about the path with the back quotes still on it, a path
    no import of the tree has. *)
Example raw_string_import_left :
  plain_import (mkImp None "`os`") = (importPath (mkImp None "`os`") = "`os`") ∧
  importPath (mkImp None "`os`") = "os" ∧
  prune_imports (mkAst [[import_fmt]; [mkImp None "`os`"]] ["fmt"])
  = mkAst [[import_fmt]; [mkImp None "`os`"]] ["fmt"].
Proof. split; [done |]. split; vm_compute; reflexivity. Qed.

(** A group whose imports are all deleted is gone. *)
Example emptied_group_gone :
  astutil_Imports (prune_imports (mkAst [[import_os]; [import_fmt]] ["fmt"]))
  = [[import_fmt]].
Proof. vm_compute. reflexivity. Qed.

(** ** Further properties of sessions *)

Lemma write_session_registry E files : ∀ w σ w' rs σ',
  write_session E w files σ = (Ret (w', rs), σ') →
  Files w' = Files w ∪ list_to_set (ok_paths rs) ∧ Dir w' = Dir w.
Proof.
  induction files as [| file rest IH]; intros w σ w' rs σ' Hs; simpl in Hs.
  - unfold mret, M_ret, ret in Hs. simplify_eq. simpl.
    split; [by rewrite union_empty_r_L | done].
  - destruct (Write_spec E w file σ) as ([w1 r1] & σ1 & Hw & Hcase).
    set (p := filepath_Join _) in *. clearbody p.
    unfold mbind, M_bind, bind in Hs. rewrite Hw in Hs. cbn [fst snd] in Hs.
    destruct (write_session E w1 rest σ1) as [[[w2 rs2] | |] σ2] eqn:Hrest;
      unfold mret, M_ret, ret in Hs; simplify_eq.
    destruct (IH _ _ _ _ _ Hrest) as [Hf Hd]. cbn [fst snd].
    destruct Hcase as [[Heq _] | (err & Heq & _)]; simplify_eq.
    + split; [| exact Hd]. rewrite Hf. simpl.
      rewrite (union_comm_L {[p]} (Files w)). by rewrite <- union_assoc_L.
    + split; [| exact Hd]. by rewrite Hf.
Qed.

(** X7. After a session the registry holds what it held before and the
    paths the successful writes returned, nothing else. *)
Theorem session_registry_returned_paths (E : Env) (w : Writer)
    (files : list File) (σ σ' : World) (w' : Writer)
    (rs : list (Result string)) (p : string) :
  write_session E w files σ = (Ret (w', rs), σ') →
  p ∈ Files w' ↔ p ∈ Files w ∨ p ∈ ok_paths rs.
Proof.
  intros Hs. destruct (write_session_registry E files _ _ _ _ _ Hs) as [-> _].
  rewrite elem_of_union, elem_of_list_to_set. done.
Qed.

Lemma session_registry_returned_paths_witness :
  "out/a.txt" ∈ Files (mkWriter "out" ({["out/b.txt"]} ∪ ({["out/a.txt"]} ∪ ∅)))
  ↔ "out/a.txt" ∈ Files (NewWriter "out") ∨
    "out/a.txt" ∈ ok_paths [Ok "out/a.txt"; Ok "out/b.txt"].
Proof.
  eapply (session_registry_returned_paths demo_env (NewWriter "out")
            [text_file "a.txt" "a"; text_file "b.txt" "b"] world0).
  vm_compute. reflexivity.
Defined.

(** X8. Path uniqueness under the contract of [OutputPath]: when each file
    of a session gave a path that, joined with the session directory, was
    not in the registry handed to it, the paths the successful writes
    return are pairwise distinct, and none was in the registry before. *)
Theorem session_paths_distinct (E : Env) (files : list File) :
  ∀ (w : Writer) (σ σ' : World) (w' : Writer) (rs : list (Result string)),
  write_session E w files σ = (Ret (w', rs), σ') →
  honoured (Dir w) (Files w) files rs →
  NoDup (ok_paths rs) ∧ ∀ p, p ∈ ok_paths rs → p ∉ Files w.
Proof.
  induction files as [| file rest IH]; intros w σ σ' w' rs Hs Hh; simpl in Hs.
  - unfold mret, M_ret, ret in Hs. simplify_eq. simpl.
    split; [constructor | intros p Hp; by apply elem_of_nil in Hp].
  - destruct (Write_spec E w file σ) as ([w1 r1] & σ1 & Hw & Hcase).
    unfold mbind, M_bind, bind in Hs. rewrite Hw in Hs. cbn [fst snd] in Hs.
    destruct (write_session E w1 rest σ1) as [[[w2 rs2] | |] σ2] eqn:Hrest;
      unfold mret, M_ret, ret in Hs; simplify_eq.
    destruct Hh as [Hfresh Hh].
    set (p := filepath_Join _) in *. clearbody p.
    destruct Hcase as [[Heq _] | (err & Heq & _)]; simplify_eq.
    + destruct (IH _ _ _ _ _ Hrest Hh) as [Hnd Hout]. simpl in Hout.
      simpl. split.
      * constructor; [| done]. intros Hin. apply (Hout _ Hin).
        apply elem_of_union. left. by apply elem_of_singleton.
      * intros q Hq. apply elem_of_cons in Hq as [-> | Hq]; [done |].
        intros Hin. apply (Hout q Hq). apply elem_of_union. by right.
    + by apply (IH _ _ _ _ _ Hrest).
Qed.

Lemma session_paths_distinct_witness :
  NoDup (ok_paths [Ok "out/a.txt"; Ok "out/b.txt"]) ∧
  ∀ p, p ∈ ok_paths [Ok "out/a.txt"; Ok "out/b.txt"] →
       p ∉ Files (NewWriter "out").
Proof.
  eapply (session_paths_distinct demo_env
            [text_file "a.txt" "a"; text_file "b.txt" "b"]
            (NewWriter "out") world0).
  - vm_compute. reflexivity.
  - simpl. split; [| split; [| done]];
      apply (bool_decide_unpack _); vm_compute; reflexivity.
Defined.

(** ** Further properties of generate *)

Lemma runs_snoc t e :
  runs (t ++ [e]) = runs t ++ match e with ERun c => [c] | _ => [] end.
Proof. unfold runs. rewrite omap_app. simpl. by destruct e. Qed.

Lemma runs_writer_events t : Forall is_writer_event t → runs t = [].
Proof.
  induction 1 as [| e t He _ IH]; [done |].
  destruct e; try done; exact IH.
Qed.

Lemma stdouts_snoc t e :
  stdouts (t ++ [e]) = stdouts t ++ match e with EStdout m => [m] | _ => [] end.
Proof. unfold stdouts. rewrite omap_app. simpl. by destruct e. Qed.

Lemma stdouts_writer_events t : Forall is_writer_event t → stdouts t = [].
Proof.
  induction 1 as [| e t He _ IH]; [done |].
  destruct e; try done; exact IH.
Qed.

Lemma touches_runs path σ σ' :
  touches path σ σ' → runs (w_trace σ') = runs (w_trace σ).
Proof.
  intros [(t & -> & Ht) _]. unfold runs. rewrite omap_app.
  fold (runs t). by rewrite (runs_writer_events t Ht), app_nil_r.
Qed.

Lemma touches_stdouts path σ σ' :
  touches path σ σ' → stdouts (w_trace σ') = stdouts (w_trace σ).
Proof.
  intros [(t & -> & Ht) _]. unfold stdouts. rewrite omap_app.
  fold (stdouts t). by rewrite (stdouts_writer_events t Ht), app_nil_r.
Qed.

(** The staged part of [generate] starts the compiler, then the driver,
    and nothing else; it starts both when it succeeds, and with valid
    commands it returns. *)
Lemma generate_staged_runs E cmds path output tmpDir gobin σ :
  ∃ o σ' k, generate_staged E cmds path output tmpDir gobin σ = (o, σ') ∧
    runs (w_trace σ') =
      runs (w_trace σ) ++ take k (generate_processes E gobin tmpDir output) ∧
    (∀ out, o = Ret (Ok out) → k = 2%nat) ∧
    (Forall valid_command cmds → ∃ r, o = Ret r).
Proof.
  unfold generate_staged, generate_processes. unfold mbind, M_bind, bind.
  destruct (Main cmds path) as [m | code | msg] eqn:HM.
  - destruct (Write_effects E (NewWriter tmpDir) (mainFile_File E m) σ)
      as (r & σ1 & Hw & Ht & _).
    rewrite Hw. apply touches_runs in Ht.
    set (exe := if str_eqb (runtime_GOOS E) "windows" then _ else _).
    destruct r as [w1 [p | err]]; cbn [fst snd].
    + unfold_calls. cbn [fst snd].
      match goal with |- context [exec_CombinedOutput_res E ?s ?c] =>
        destruct (exec_CombinedOutput_res E s c) as [cout1 [e1 |]] eqn:H1 end;
        cbn [fst snd].
      * eexists _, _, 1%nat. split; [reflexivity |]. cbn [w_trace].
        rewrite runs_snoc, Ht. split; [done |]. split; [done | eauto].
      * match goal with |- context [exec_CombinedOutput_res E ?s ?c] =>
          destruct (exec_CombinedOutput_res E s c) as [cout2 [e2 |]] eqn:H2 end;
          cbn [fst snd];
          (eexists _, _, 2%nat; split; [reflexivity |]; cbn [w_trace];
           rewrite !runs_snoc, Ht, <- app_assoc;
           split; [done |]; split; [done | eauto]).
    + eexists _, _, 0%nat. split; [reflexivity |].
      rewrite Ht, app_nil_r. split; [done |]. split; [done | eauto].
  - by apply Main_no_exit in HM.
  - eexists _, _, 0%nat. split; [reflexivity |]. rewrite app_nil_r.
    split; [done |]. split; [done |]. intros Hv. exfalso.
    unfold Main in HM.
    destruct (Main_loop_valid cmds 0 (replicate (length cmds) "") Hv)
      as (names & _ & Heq); [by rewrite length_replicate |].
    by rewrite Heq in HM.
Qed.

(** X9. Whatever happens, [generate] starts no process before it has
    found a Go compiler and created its workspace, and then only these
    two, in this order: the compiler [exec.LookPath] found, run in the
    workspace [ioutil.TempDir] created, to build the driver; and the
    driver in that workspace, with the version of goagen and the output
    directory as its two flags.  When [generate] succeeds it has started
    both. *)
Theorem generate_starts_compiler_then_driver (E : Env) (cmds : list string)
    (path output : string) (gens debug : bool) (σ : World) :
  ∃ o σ' k,
    generate E cmds path output gens debug σ = (o, σ') ∧
    runs (w_trace σ') =
      runs (w_trace σ) ++
      match generate_staging E path σ with
      | Some (gobin, tmpDir) =>
          take k (generate_processes E gobin tmpDir output)
      | None => []
      end ∧
    (∀ out, o = Ret (Ok out) →
       k = 2%nat ∧ is_Some (generate_staging E path σ)).
Proof.
  unfold generate, generate_staging, generate_wd, after_Getwd,
    after_LookPath, after_Import.
  unfold_calls. simpl.
  destruct (build_Import_err E σ path ".") as [err |]; simpl.
  { eexists _, _, 0%nat. split; [reflexivity |]. simpl.
    rewrite runs_snoc, !app_nil_r. done. }
  destruct (exec_LookPath_res E _ "go") as [gobin | err]; simpl.
  2:{ eexists _, _, 0%nat. split; [reflexivity |]. simpl.
      rewrite !runs_snoc, !app_nil_r. done. }
  destruct (ioutil_TempDir_res E _ _ "goagen") as [tmpDir | err]; simpl.
  2:{ eexists _, _, 0%nat. split; [reflexivity |]. simpl.
      rewrite !runs_snoc, !app_nil_r. done. }
  set (σ0 := mkWorld _ _ _).
  destruct (generate_staged_runs E cmds path output tmpDir gobin σ0)
    as (o & σ1 & k & Hg & Hr & Hk & _).
  assert (runs (w_trace σ0) = runs (w_trace σ)) as H0.
  { subst σ0. simpl. rewrite !runs_snoc. by rewrite !app_nil_r. }
  rewrite H0 in Hr.
  destruct debug.
  - exists o, σ1, k. rewrite Hg. split; [done |]. split; [done |].
    intros out Hout. split; [by eapply Hk | by eexists].
  - unfold defer. rewrite Hg.
    destruct o as [r | code | msg].
    + eexists _, _, k. split; [reflexivity |]. simpl.
      rewrite runs_snoc, app_nil_r. split; [done |].
      intros out [= ->]. split; [by eapply Hk | by eexists].
    + eexists _, _, k. split; [reflexivity |]. split; done.
    + eexists _, _, k. split; [reflexivity |]. simpl.
      rewrite runs_snoc, app_nil_r. split; done.
Qed.

(** In the sample environment the two processes are [go build] in the
    workspace and the driver built there. *)
Example demo_generate_processes :
  runs (w_trace (generate demo_env ["server"] "design" "gen" false false
                   world0).2)
  = [ mkCmd "/usr/bin/go" ["/usr/bin/go"; "build"; "-o"; "goagen"]
        "goagen123";
      mkCmd "goagen123/goagen"
        ["goagen123/goagen"; "--version=v2.0.0"; "--output=gen"] "" ].
Proof. vm_compute. reflexivity. Qed.

(** With valid commands [generate] returns: it neither panics nor ends
    the process. *)
Lemma generate_valid_returns E cmds path output gens debug σ :
  Forall valid_command cmds →
  ∃ r σ', generate E cmds path output gens debug σ = (Ret r, σ').
Proof.
  intros Hv. unfold generate. unfold_calls. simpl.
  destruct (build_Import_err E σ path ".") as [err |]; simpl; [by eauto |].
  destruct (exec_LookPath_res E _ "go") as [gobin | err]; simpl; [| by eauto].
  destruct (ioutil_TempDir_res E _ _ "goagen") as [tmpDir | err]; simpl;
    [| by eauto].
  set (σ0 := mkWorld _ _ _).
  destruct (generate_staged_runs E cmds path output tmpDir gobin σ0)
    as (o & σ1 & k & Hg & _ & _ & Hret).
  destruct (Hret Hv) as [r ->].
  destruct debug; [by eauto |]. unfold defer. rewrite Hg. by eauto.
Qed.

(** ** Further properties of the driver *)

Lemma fails_loudly_ret {A} (a : A) : fails_loudly (mret a).
Proof. intros σ. exists (Ret a), σ. split; [done |]. split; [done |]. eauto. Qed.

Lemma fails_loudly_bind {A B} (m : M A) (k : A → M B) :
  fails_loudly m → (∀ a, fails_loudly (k a)) → fails_loudly (m ≫= k).
Proof.
  intros Hm Hk σ. destruct (Hm σ) as (o & σ1 & Hrun & Hout & Hcase).
  unfold mbind, M_bind, bind. rewrite Hrun.
  destruct Hcase as [[a ->] | [-> Hlast]].
  - destruct (Hk a σ1) as (o2 & σ2 & Hrun2 & Hout2 & Hcase2).
    exists o2, σ2. split; [done |]. split; [congruence | done].
  - exists (Exit 1), σ1. split; [done |]. split; [done |]. by right.
Qed.

Lemma fails_loudly_fail {A} msg : fails_loudly (@fail A msg).
Proof.
  intros σ. unfold fail, os_Exit. unfold_calls. simpl.
  eexists _, _. split; [reflexivity |]. simpl.
  rewrite stdouts_snoc, app_nil_r. split; [done |]. right.
  split; [done |]. exists msg. by rewrite last_snoc.
Qed.

Lemma fails_loudly_ask {A} (f : World → A) : fails_loudly (ask f).
Proof.
  intros σ. exists (Ret (f σ)), σ. split; [done |]. split; [done |]. eauto.
Qed.

Lemma fails_loudly_emit e :
  (∀ m, e ≠ EStdout m) → fails_loudly (emit e).
Proof.
  intros He σ. eexists _, _. split; [reflexivity |]. simpl.
  rewrite stdouts_snoc. split; [| eauto].
  destruct e; try by rewrite app_nil_r. by destruct (He msg).
Qed.

Lemma fails_loudly_Write E w file : fails_loudly (Write E w file).
Proof.
  intros σ. destruct (Write_effects E w file σ) as (r & σ' & Hw & Ht & _).
  exists (Ret r), σ'. split; [done |].
  split; [by eapply touches_stdouts | eauto].
Qed.

Lemma fails_loudly_run_generators D gens : ∀ roots files,
  fails_loudly (run_generators D gens roots files).
Proof.
  induction gens as [| g rest IH]; intros roots files; simpl.
  - apply fails_loudly_ret.
  - apply fails_loudly_bind; [apply fails_loudly_ask |]. intros r.
    apply fails_loudly_bind; [by apply fails_loudly_emit |]. intros _.
    destruct r; [apply IH | apply fails_loudly_fail].
Qed.

Lemma fails_loudly_write_files E files : ∀ w i outputs,
  fails_loudly (write_files E w i files outputs).
Proof.
  induction files as [| file rest IH]; intros w i outputs; simpl.
  - apply fails_loudly_ret.
  - apply fails_loudly_bind; [apply fails_loudly_Write |]. intros wr.
    destruct wr.2; [apply IH | apply fails_loudly_fail].
Qed.

Lemma prints_or_fails_bind {A} (m : M A) (k : A → M unit) :
  fails_loudly m → (∀ a, prints_or_fails (k a)) → prints_or_fails (m ≫= k).
Proof.
  intros Hm Hk σ. destruct (Hm σ) as (o & σ1 & Hrun & Hout & Hcase).
  unfold mbind, M_bind, bind. rewrite Hrun.
  destruct Hcase as [[a ->] | [-> Hlast]].
  - destruct (Hk a σ1) as (o2 & σ2 & Hrun2 & Hcase2).
    exists o2, σ2. split; [done |]. rewrite <- Hout. exact Hcase2.
  - exists (Exit 1), σ1. split; [done |]. right. by split.
Qed.

Lemma fails_loudly_check (failed : bool) msg :
  fails_loudly (if failed then fail msg else mret tt).
Proof. destruct failed; [apply fails_loudly_fail | apply fails_loudly_ret]. Qed.

Lemma fails_loudly_check_err (err : option error) :
  fails_loudly (match err with Some e => fail e | None => mret tt end).
Proof. destruct err; [apply fails_loudly_fail | apply fails_loudly_ret]. Qed.

Lemma driver_main_prints_or_fails E D gens out version :
  prints_or_fails (driver_main E D gens out version).
Proof.
  unfold driver_main.
  apply prints_or_fails_bind; [apply fails_loudly_check |]. intros _.
  apply prints_or_fails_bind; [apply fails_loudly_check |]. intros _.
  apply prints_or_fails_bind; [apply fails_loudly_check |]. intros _.
  apply prints_or_fails_bind; [apply fails_loudly_ask |]. intros errs.
  apply prints_or_fails_bind; [apply fails_loudly_check_err |]. intros _.
  apply prints_or_fails_bind.
  { unfold eval_RunDSL.
    apply fails_loudly_bind; [apply fails_loudly_ask |]. intros r.
    apply fails_loudly_bind; [by apply fails_loudly_emit |]. intros _.
    apply fails_loudly_ret. }
  intros run.
  apply prints_or_fails_bind; [apply fails_loudly_check_err |]. intros _.
  apply prints_or_fails_bind.
  { unfold eval_Context_Roots.
    apply fails_loudly_bind; [apply fails_loudly_ask |]. intros r.
    apply fails_loudly_bind; [by apply fails_loudly_emit |]. intros _.
    apply fails_loudly_ret. }
  intros rs.
  apply prints_or_fails_bind.
  { destruct rs; [apply fails_loudly_ret | apply fails_loudly_fail]. }
  intros roots.
  apply prints_or_fails_bind; [apply fails_loudly_run_generators |].
  intros files.
  apply prints_or_fails_bind; [apply fails_loudly_write_files |].
  intros outputs σ. eexists _, _. split; [reflexivity |]. left.
  split; [done |]. eexists _, _. split; [reflexivity | done].
Qed.

(** How the driver gets to its generators: it ends before with exit
    status 1 right after one message on standard error, or it gets there
    with the roots of the design. *)
Lemma driver_main_phases E D gens out version σ :
  (∃ msg σ1, driver_main E D gens out version σ
             = (Exit 1, log (EStderr msg) σ1) ∧
     (σ1 = σ ∨ σ1 = log ERunDSL σ ∨ σ1 = log ERoots (log ERunDSL σ))) ∨
  (∃ roots,
     eval_Context_Roots_res D (log ERunDSL σ) = Ok roots ∧
     driver_main E D gens out version σ
     = (files ← run_generators D gens roots [];
        outputs ← write_files E (NewWriter out) 0 files
                    (replicate (length files) "");
        emit (EStdout (strings_Join (sort_Strings outputs) nl +:+ nl)))
         (log ERoots (log ERunDSL σ))).
Proof.
  unfold driver_main, eval_RunDSL, eval_Context_Roots, fail, os_Exit, str_eqb.
  unfold mbind, M_bind, bind, mret, M_ret, ret, ask, emit.
  case_bool_decide; [left; eexists _, _; split; [reflexivity | by left] |].
  case_bool_decide; [left; eexists _, _; split; [reflexivity | by left] |].
  case_bool_decide; cbn [negb];
    [| left; eexists _, _; split; [reflexivity | by left]].
  destruct (eval_Context_Errors D σ) as [err |];
    [left; eexists _, _; split; [reflexivity | by left] |].
  destruct (eval_RunDSL_err D σ) as [err |];
    [left; eexists _, _; split; [reflexivity | right; by left] |].
  destruct (eval_Context_Roots_res D (log ERunDSL σ)) as [roots | err];
    [| left; eexists _, _; split; [reflexivity | right; by right]].
  right. exists roots. split; [done |]. reflexivity.
Qed.

(** The calls of the generators change no file and no directory; when
    they return, every generator was called. *)
Lemma run_generators_frame D gens : ∀ roots files σ o σ',
  run_generators D gens roots files σ = (o, σ') →
  w_files σ' = w_files σ ∧ w_dirs σ' = w_dirs σ ∧
  (∀ fs, o = Ret fs →
     generator_calls (w_trace σ') = generator_calls (w_trace σ) ++ gens).
Proof.
  induction gens as [| g rest IH]; intros roots files σ o σ' Hrun;
    simpl in Hrun.
  - unfold mret, M_ret, ret in Hrun. simplify_eq.
    rewrite app_nil_r. done.
  - unfold mbind, M_bind, bind, ask, emit in Hrun.
    destruct (generator D g σ roots) as [fs | err].
    + apply IH in Hrun as (Hf & Hd & Hr). simpl in *.
      split; [done |]. split; [done |].
      intros fs' Hfs. rewrite (Hr fs' Hfs). unfold generator_calls.
      rewrite omap_app. simpl. by rewrite <- app_assoc.
    + unfold fail, os_Exit, mbind, M_bind, bind, emit in Hrun. simplify_eq.
      done.
Qed.

(** C7. When the driver ends well, it has called the generators on the
    roots of the design and written the files they returned, in one
    session, into the directory of its output flag; what it printed to
    standard output is one block, printed last: the paths returned by the
    writes of that session, sorted in ascending order of their bytes,
    joined by newlines and ended by one.  The order in which the files
    were generated and written does not show: any other order of the same
    paths prints the same. *)
Theorem driver_prints_sorted_paths (E : Env) (D : DriverEnv)
    (gens : list string) (out version : string) (σ σ' : World) :
  driver_main E D gens out version σ = (Ret tt, σ') →
  ∃ roots files σ3 w' paths σ4,
    eval_Context_Roots_res D (log ERunDSL σ) = Ok roots ∧
    run_generators D gens roots [] (log ERoots (log ERunDSL σ))
    = (Ret files, σ3) ∧
    write_session E (NewWriter out) files σ3 = (Ret (w', Ok <$> paths), σ4) ∧
    σ' = log (EStdout (strings_Join (sort_Strings paths) nl +:+ nl)) σ4 ∧
    stdouts (w_trace σ')
    = stdouts (w_trace σ) ++ [strings_Join (sort_Strings paths) nl +:+ nl] ∧
    Sorted String.le (sort_Strings paths) ∧
    sort_Strings paths ≡ₚ paths ∧
    ∀ paths', paths' ≡ₚ paths → sort_Strings paths' = sort_Strings paths.
Proof.
  intros Hmain.
  destruct (driver_main_phases E D gens out version σ)
    as [(msg & σ1 & Hrun & _) | (roots & Hroots & Hrun)]; [congruence |].
  rewrite Hrun in Hmain. unfold mbind, M_bind, bind in Hmain.
  destruct (fails_loudly_run_generators D gens roots []
              (log ERoots (log ERunDSL σ))) as (o & σ3 & Hg & Hout3 & _).
  simpl in Hout3. rewrite !stdouts_snoc, !app_nil_r in Hout3.
  rewrite Hg in Hmain. destruct o as [files | code | msg]; [| done | done].
  destruct (fails_loudly_write_files E files (NewWriter out) 0
              (replicate (length files) "") σ3) as (o & σ4 & Hw & Hout4 & _).
  rewrite Hw in Hmain. destruct o as [outputs | code | msg]; [| done | done].
  unfold emit in Hmain. simplify_eq.
  apply write_files_session in Hw as (w' & paths & Hs & Hout);
    [| by rewrite length_replicate].
  simpl in Hout. rewrite drop_ge in Hout by (by rewrite length_replicate).
  rewrite app_nil_r in Hout. subst outputs.
  exists roots, files, σ3, w', paths, σ4.
  split; [done |]. split; [done |]. split; [done |]. split; [done |].
  split; [simpl; rewrite stdouts_snoc; congruence |].
  split; [apply Sorted_merge_sort; apply _ |].
  split; [apply merge_sort_Permutation |].
  intros paths' Hperm. apply (Sorted_unique String.le).
  - apply Sorted_merge_sort; apply _.
  - apply Sorted_merge_sort; apply _.
  - unfold sort_Strings. by rewrite !merge_sort_Permutation.
Qed.

Lemma driver_prints_sorted_paths_witness :
  ∃ roots files σ3 w' paths σ4,
    eval_Context_Roots_res demo_driver (log ERunDSL world0) = Ok roots ∧
    run_generators demo_driver ["Server"] roots []
      (log ERoots (log ERunDSL world0))
    = (Ret files, σ3) ∧
    write_session demo_env (NewWriter "out") files σ3
    = (Ret (w', Ok <$> paths), σ4) ∧
    (driver_main demo_env demo_driver ["Server"] "out" "v2.0.0" world0).2
    = log (EStdout (strings_Join (sort_Strings paths) nl +:+ nl)) σ4 ∧
    stdouts (w_trace
      (driver_main demo_env demo_driver ["Server"] "out" "v2.0.0" world0).2)
    = stdouts (w_trace world0)
        ++ [strings_Join (sort_Strings paths) nl +:+ nl] ∧
    Sorted String.le (sort_Strings paths) ∧
    sort_Strings paths ≡ₚ paths ∧
    ∀ paths', paths' ≡ₚ paths → sort_Strings paths' = sort_Strings paths.
Proof.
  apply (driver_prints_sorted_paths demo_env demo_driver ["Server"] "out"
           "v2.0.0" world0).
  vm_compute. reflexivity.
Defined.

(** X11. The driver prints to standard output only when it ends well, and
    then once, as the last thing it does.  Whenever it ends the process
    instead, it has printed nothing to standard output and the last thing
    it did was write to standard error; the exit status is 1, unless it
    is the flag package that ended the process on the arguments, with the
    status of its choice. *)
Theorem driver_prints_or_fails (E : Env) (D : DriverEnv)
    (flag_Parse : list string → DriverFlags) (gens args : list string)
    (σ : World) :
  ∃ o σ', driver_process E D flag_Parse gens args σ = (o, σ') ∧
    (o = Ret tt →
       ∃ t listing, w_trace σ' = t ++ [EStdout listing] ∧
         stdouts t = stdouts (w_trace σ)) ∧
    (∀ code, o = Exit code →
       stdouts (w_trace σ') = stdouts (w_trace σ) ∧
       (∃ msg, last (w_trace σ') = Some (EStderr msg)) ∧
       (code = 1 ∨ ∃ printed, flag_Parse args = DriverFlagsExit printed code)).
Proof.
  unfold driver_process.
  destruct (flag_Parse args) as [out version | printed code0] eqn:Hparse.
  - destruct (driver_main_prints_or_fails E D gens out version σ)
      as (o & σ' & Hrun & [[-> Hret] | (-> & Hout & Hlast)]).
    + exists (Ret tt), σ'. split; [done |]. split; [done |]. intros code H.
      discriminate H.
    + exists (Exit 1), σ'. split; [done |]. split; [intros H; discriminate H |].
      intros code [= <-]. split; [done |]. split; [done | by left].
  - unfold os_Exit, mbind, M_bind, bind, emit.
    eexists _, _. split; [reflexivity |].
    split; [intros H; discriminate H |].
    intros code [= <-]. simpl. rewrite stdouts_snoc, app_nil_r.
    split; [done |]. split; [| right; by eexists].
    exists printed. by rewrite last_snoc.
Qed.

(** X12. The driver writes only after its generators: in a run that
    changes a file or creates a directory, every selected generator was
    called before, in the order given, on the roots of the design, and
    each returned its files; up to then nothing was written.  So a run in
    which a generator fails writes nothing. *)
Theorem driver_generator_failure_writes_nothing (E : Env) (D : DriverEnv)
    (gens : list string) (out version : string) (σ σ' : World)
    (o : Outcome unit) :
  driver_main E D gens out version σ = (o, σ') →
  w_files σ' ≠ w_files σ ∨ w_dirs σ' ≠ w_dirs σ →
  ∃ roots files σ3,
    eval_Context_Roots_res D (log ERunDSL σ) = Ok roots ∧
    run_generators D gens roots [] (log ERoots (log ERunDSL σ))
    = (Ret files, σ3) ∧
    w_files σ3 = w_files σ ∧ w_dirs σ3 = w_dirs σ ∧
    generator_calls (w_trace σ3) = generator_calls (w_trace σ) ++ gens.
Proof.
  intros Hmain Hchanged.
  destruct (driver_main_phases E D gens out version σ)
    as [(msg & σ1 & Hrun & Hσ1) | (roots & Hroots & Hrun)].
  - rewrite Hrun in Hmain. simplify_eq.
    destruct Hσ1 as [-> | [-> | ->]]; simpl in Hchanged; tauto.
  - rewrite Hrun in Hmain. unfold mbind, M_bind, bind in Hmain.
    destruct (run_generators D gens roots [] _) as [og σ3] eqn:Hg.
    destruct (run_generators_frame D gens roots [] _ og σ3 Hg)
      as (Hf & Hd & Hcalls).
    simpl in Hf, Hd, Hcalls.
    destruct og as [files | code | msg].
    + exists roots, files, σ3. split; [done |]. split; [done |].
      split; [done |]. split; [done |].
      rewrite (Hcalls files eq_refl). unfold generator_calls.
      by rewrite !omap_app, !app_nil_r.
    + simplify_eq. rewrite Hf, Hd in Hchanged. tauto.
    + simplify_eq. rewrite Hf, Hd in Hchanged. tauto.
Qed.

Lemma driver_generator_failure_writes_nothing_witness :
  ∃ roots files σ3,
    eval_Context_Roots_res demo_driver (log ERunDSL world0) = Ok roots ∧
    run_generators demo_driver ["Server"] roots []
      (log ERoots (log ERunDSL world0))
    = (Ret files, σ3) ∧
    w_files σ3 = w_files world0 ∧ w_dirs σ3 = w_dirs world0 ∧
    generator_calls (w_trace σ3)
    = generator_calls (w_trace world0) ++ ["Server"].
Proof.
  apply (driver_generator_failure_writes_nothing demo_env demo_driver
           ["Server"] "out" "v2.0.0" world0
           (driver_main demo_env demo_driver ["Server"] "out" "v2.0.0"
              world0).2
           (Ret tt)).
  - vm_compute. reflexivity.
  - right. intros Heq.
    assert ("out" ∈ w_dirs world0) as Hin.
    { rewrite <- Heq. apply (bool_decide_unpack _). vm_compute. reflexivity. }
    revert Hin. apply (bool_decide_unpack _). vm_compute. reflexivity.
Defined.

(** The sample driver rendered for the generator [Client], which fails
    there: the driver exits with status 1 and has written nothing. *)
Example demo_driver_generator_fails :
  ∃ σ', driver_main demo_env demo_driver ["Client"] "out" "v2.0.0" world0
        = (Exit 1, σ') ∧
    w_files σ' = w_files world0 ∧ w_dirs σ' = w_dirs world0 ∧
    generator_calls (w_trace σ') = ["Client"].
Proof. eexists. split; [vm_compute; reflexivity | done]. Qed.

(** ** main *)

Lemma is_command_valid a : is_command a = true ↔ valid_command a.
Proof.
  unfold is_command, valid_command, str_eqb.
  rewrite !orb_true_iff, !bool_decide_eq_true.
  rewrite !elem_of_cons, elem_of_nil. tauto.
Qed.

(** The loop over the commands takes a run of commands from the front of
    the arguments left, and never the last argument. *)
Lemma scan_commands_spec rest : ∀ offset cm,
  ∃ n, scan_commands rest offset cm
       = ((offset + n)%nat, cm ∪ list_to_set (take n rest)) ∧
    Forall valid_command (take n rest) ∧
    (rest ≠ [] → (n < length rest)%nat).
Proof.
  induction rest as [| a rest IH]; intros offset cm.
  - exists 0%nat. simpl. rewrite Nat.add_0_r, union_empty_r_L.
    split; [done |]. split; [constructor | done].
  - destruct rest as [| b rest'].
    + exists 0%nat. simpl. rewrite Nat.add_0_r, union_empty_r_L.
      split; [done |]. split; [constructor | simpl; lia].
    + change (scan_commands (a :: b :: rest') offset cm)
        with (if is_command a
              then scan_commands (b :: rest') (S offset) ({[a]} ∪ cm)
              else (offset, cm)).
      destruct (is_command a) eqn:Ha.
      * destruct (IH (S offset) ({[a]} ∪ cm)) as (n & Heq & Hv & Hlt).
        exists (S n). rewrite Heq. split; [| split].
        -- f_equal; [lia |]. cbn [take list_to_set].
           rewrite (union_comm_L {[a]} cm). by rewrite <- union_assoc_L.
        -- cbn [take]. constructor; [by apply is_command_valid | done].
        -- intros _. specialize (Hlt ltac:(done)). simpl in *. lia.
      * exists 0%nat. simpl. rewrite Nat.add_0_r, union_empty_r_L.
        split; [done |]. split; [constructor | lia].
Qed.

Lemma os_Args_at_Some args i a : args !! i = Some a → os_Args_at args i = mret a.
Proof. intros H. unfold os_Args_at. by rewrite H. Qed.

Lemma os_Args_at_None args i :
  args !! i = None → os_Args_at args i = panic index_out_of_range.
Proof. intros H. unfold os_Args_at. by rewrite H. Qed.

(** The four ways the first block of [main] ends. *)
Lemma main_args_cases E args σ :
  ((length args < 2)%nat ∧
   main_args E args σ = (Panic index_out_of_range, σ)) ∨
  (args !! 1%nat = Some "version" ∧
   main_args E args σ
   = (Exit 0, log (EStdout ("goagen version " +:+ pkg_Version E +:+ nl)) σ)) ∨
  (length args = 2%nat ∧ (∃ c, args !! 1%nat = Some c ∧ valid_command c) ∧
   main_args E args σ = (Exit 1, log (EStderr help_text) σ)) ∨
  (∃ cmds path offset,
     main_args E args σ = (Ret (cmds, path, offset), σ) ∧
     (2 ≤ length args)%nat ∧
     args !! offset = Some path ∧
     Forall valid_command cmds ∧ NoDup cmds ∧ Sorted String.le cmds ∧
     Forall valid_command (take (offset - 1) (drop 1 args)) ∧
     ((offset = 1%nat ∧ cmds = ["client"; "openapi"; "server"]) ∨
      ((2 ≤ offset)%nat ∧
       ∀ c, c ∈ cmds ↔ c ∈ take (offset - 1) (drop 1 args)))).
Proof.
  destruct (main_args E args σ) as [o σ'] eqn:Hrun. revert Hrun.
  unfold main_args.
  destruct (args !! 1%nat) as [a1 |] eqn:H1.
  2:{ rewrite (os_Args_at_None _ _ H1). intros [= <- <-].
      left. apply lookup_ge_None in H1. split; [lia | done]. }
  assert (2 ≤ length args)%nat as Hlen.
  { apply lookup_lt_Some in H1. lia. }
  rewrite (os_Args_at_Some _ _ _ H1).
  unfold mbind, M_bind, bind, mret, M_ret, ret. cbn [fst snd].
  unfold str_eqb at 1. case_bool_decide as Hver.
  { intros [= <- <-]. right. left. by subst a1. }
  destruct (is_command a1) eqn:Hcmd.
  - case_bool_decide as H2.
    { intros [= <- <-]. right. right. left. split; [done |].
      split; [| done]. exists a1. split; [done | by apply is_command_valid]. }
    destruct (scan_commands_spec (drop 2 args) 2 {[a1]}) as (n & Hsc & Hv & Hlt).
    assert (drop 2 args ≠ []) as Hne.
    { intros Hnil. apply (f_equal length) in Hnil.
      rewrite length_drop in Hnil. simpl in Hnil. lia. }
    specialize (Hlt Hne). rewrite length_drop in Hlt.
    rewrite Hsc. cbn [fst snd].
    destruct (args !! (2 + n)%nat) as [path |] eqn:Hp.
    2:{ apply lookup_ge_None in Hp. lia. }
    rewrite (os_Args_at_Some _ _ _ Hp).
    unfold mret, M_ret, ret. intros [= <- <-].
    assert (drop 1 args = a1 :: drop 2 args) as Hd1.
    { destruct args as [| a0 [| a1' rest]]; simpl in *; try lia.
      rewrite drop_0. by simplify_eq. }
    assert (take (2 + n - 1) (drop 1 args) = a1 :: take n (drop 2 args)) as Htk.
    { rewrite Hd1. by replace (2 + n - 1)%nat with (S n) by lia. }
    assert (∀ c, c ∈ sort_Strings
                   (elements ({[a1]} ∪ list_to_set (take n (drop 2 args))
                              : gset string))
                 ↔ c ∈ a1 :: take n (drop 2 args)) as Hmem.
    { intros c. unfold sort_Strings. rewrite merge_sort_Permutation.
      rewrite elem_of_elements, elem_of_union, elem_of_singleton,
        elem_of_list_to_set, elem_of_cons. done. }
    right. right. right. eexists _, path, (2 + n)%nat.
    split; [reflexivity |]. split; [done |]. split; [done |].
    rewrite Htk. split; [| split; [| split; [| split]]].
    + apply Forall_forall. intros c Hc. apply Hmem in Hc.
      apply elem_of_cons in Hc as [-> | Hc]; [by apply is_command_valid |].
      by eapply Forall_forall in Hv.
    + unfold sort_Strings. rewrite merge_sort_Permutation.
      apply NoDup_elements.
    + apply Sorted_merge_sort; apply _.
    + constructor; [by apply is_command_valid | done].
    + right. split; [lia | exact Hmem].
  - intros [= <- <-]. right. right. right.
    exists ["client"; "openapi"; "server"], a1, 1%nat.
    split; [done |]. split; [done |]. split; [done |].
    split; [| split; [| split; [| split]]].
    + unfold valid_command. repeat constructor;
        rewrite !elem_of_cons; tauto.
    + apply (bool_decide_unpack _). vm_compute. reflexivity.
    + apply (bool_decide_unpack _). vm_compute. reflexivity.
    + constructor.
    + by left.
Qed.

(** X13. When the first block of [main] hands over, it has changed nothing;
    the path is the argument at [offset]; the commands are valid, sorted
    and without repetition.  Either the first argument was no command, and
    all three commands are selected with the first argument as path; or
    the arguments before the path are all commands and the commands
    selected are exactly those. *)
Theorem main_args_selects_commands (E : Env) (args : list string)
    (σ σ' : World) (cmds : list string) (path : string) (offset : nat) :
  main_args E args σ = (Ret (cmds, path, offset), σ') →
  σ' = σ ∧ args !! offset = Some path ∧
  Forall valid_command cmds ∧ NoDup cmds ∧ Sorted String.le cmds ∧
  ((offset = 1%nat ∧ (∀ c, args !! 1%nat = Some c → ¬ valid_command c) ∧
    cmds = ["client"; "openapi"; "server"]) ∨
   ((2 ≤ offset)%nat ∧
    Forall valid_command (take (offset - 1) (drop 1 args)) ∧
    ∀ c, c ∈ cmds ↔ c ∈ take (offset - 1) (drop 1 args))).
Proof.
  intros Hrun.
  destruct (main_args_cases E args σ)
    as [[_ H] | [[_ H] | [(_ & _ & H) | H]]];
    [congruence | congruence | congruence |].
  destruct H as (cmds' & path' & offset' & H & _ & Hp & Hv & Hnd & Hs & Hvt & Hc).
  rewrite Hrun in H. simplify_eq.
  split; [done |]. split; [done |]. split; [done |]. split; [done |].
  split; [done |].
  destruct Hc as [[-> ->] | [Ho Hm]]; [| by right].
  left. split; [done |]. split; [| done].
  intros c Hc Hvalid. apply is_command_valid in Hvalid.
  revert Hrun. unfold main_args. rewrite (os_Args_at_Some _ _ _ Hc).
  unfold mbind, M_bind, bind, mret, M_ret, ret. cbn [fst snd].
  rewrite Hvalid.
  destruct (str_eqb c "version"); [done |].
  case_bool_decide; [done |].
  destruct (scan_commands_spec (drop 2 args) 2 {[c]}) as (n & Hsc & _).
  rewrite Hsc. cbn [fst snd].
  destruct (os_Args_at args (2 + n) σ) as [[?|?|?] ?]; intros ?; simplify_eq.
Qed.

Lemma main_args_selects_commands_witness :
  world0 = world0 ∧
  ["goagen"; "server"; "client"; "server"; "design"; "-o"; "gen"] !! 4%nat
    = Some "design" ∧
  Forall valid_command ["client"; "server"] ∧ NoDup ["client"; "server"] ∧
  Sorted String.le ["client"; "server"] ∧
  ((4%nat = 1%nat ∧
    (∀ c, ["goagen"; "server"; "client"; "server"; "design"; "-o"; "gen"]
            !! 1%nat = Some c → ¬ valid_command c) ∧
    ["client"; "server"] = ["client"; "openapi"; "server"]) ∨
   ((2 ≤ 4)%nat ∧
    Forall valid_command
      (take (4 - 1)
         (drop 1 ["goagen"; "server"; "client"; "server"; "design"; "-o"; "gen"])) ∧
    ∀ c, c ∈ ["client"; "server"] ↔
         c ∈ take (4 - 1)
               (drop 1 ["goagen"; "server"; "client"; "server"; "design";
                        "-o"; "gen"]))).
Proof.
  apply (main_args_selects_commands demo_env
           ["goagen"; "server"; "client"; "server"; "design"; "-o"; "gen"]
           world0 world0 ["client"; "server"] "design" 4).
  vm_compute. reflexivity.
Defined.

(** The second block of [main] changes nothing when it hands over, and
    otherwise exits with status 1 after the help text. *)
Lemma main_flags_cases flag_Parse args offset σ :
  (∃ v, main_flags flag_Parse args offset σ = (Ret v, σ)) ∨
  (∃ σ', main_flags flag_Parse args offset σ = (Exit 1, σ') ∧
     last (w_trace σ') = Some (EStderr help_text)).
Proof.
  unfold main_flags. case_bool_decide; [| left; by eexists].
  destruct (flag_Parse _) as [f | printed]; [left; by eexists |].
  right. eexists. split; [reflexivity |]. simpl. by rewrite last_snoc.
Qed.

(** How [main] ends. *)
Lemma goagen_main_cases E flag_Parse args σ :
  ∃ o σ', goagen_main E flag_Parse args σ = (o, σ') ∧
    match o with
    | Panic _ => (length args < 2)%nat ∧ σ' = σ
    | Exit code =>
        (2 ≤ length args)%nat ∧
        ((code = 0 ∧ args !! 1%nat = Some "version" ∧
          σ' = log (EStdout ("goagen version " +:+ pkg_Version E +:+ nl)) σ) ∨
         (code = 1 ∧ last (w_trace σ') = Some (EStderr help_text)) ∨
         (code = 1 ∧
          ∃ cmds path offset v err σg,
            main_args E args σ = (Ret (cmds, path, offset), σ) ∧
            main_flags flag_Parse args offset σ = (Ret v, σ) ∧
            generate E cmds path v.1.1 v.1.2 v.2 σ = (Ret (Error err), σg) ∧
            σ' = log (EStderr err) σg))
    | Ret _ =>
        (2 ≤ length args)%nat ∧
        ∃ cmds path offset v out σg,
          main_args E args σ = (Ret (cmds, path, offset), σ) ∧
          main_flags flag_Parse args offset σ = (Ret v, σ) ∧
          generate E cmds path v.1.1 v.1.2 v.2 σ = (Ret (Ok out), σg) ∧
          σ' = log (EStdout out) σg
    end.
Proof.
  unfold goagen_main. unfold mbind, M_bind, bind.
  destruct (main_args_cases E args σ)
    as [[Hl H] | [[Hv H] | [(Hl & _ & H) | H]]].
  - rewrite H. eexists _, _. split; [reflexivity |]. done.
  - rewrite H. eexists _, _. split; [reflexivity |].
    split; [apply lookup_lt_Some in Hv; lia | by left].
  - rewrite H. eexists _, _. split; [reflexivity |].
    split; [lia |]. right. left. split; [done |]. simpl.
    by rewrite last_snoc.
  - destruct H as (cmds & path & offset & H & Hl & _ & Hv & _).
    rewrite H. cbn [fst snd].
    destruct (main_flags_cases flag_Parse args offset σ)
      as [[v Hf] | (σ1 & Hf & Hlast)]; rewrite Hf.
    + destruct (generate_valid_returns E cmds path v.1.1 v.1.2 v.2 σ Hv)
        as (r & σ2 & Hg).
      rewrite Hg. destruct r as [out | err].
      * eexists _, _. split; [reflexivity |]. split; [done |].
        by exists cmds, path, offset, v, out, σ2.
      * eexists _, _. split; [reflexivity |]. split; [done |]. right. right.
        split; [done |]. by exists cmds, path, offset, v, err, σ2.
    + eexists _, _. split; [reflexivity |]. split; [done |]. right. left.
      by split.
Qed.

(** X14. [main] panics exactly when it is run without any argument: the
    index expression [os.Args[1]] is then out of range.  With an argument
    it does not panic; the panic of [Main] on an unknown command is out of
    its reach, the commands it selects being valid. *)
Theorem goagen_main_panics_iff_no_argument (E : Env)
    (flag_Parse : list string → FlagParse) (args : list string) (σ : World) :
  (∃ msg σ', goagen_main E flag_Parse args σ = (Panic msg, σ'))
  ↔ (length args < 2)%nat.
Proof.
  destruct (goagen_main_cases E flag_Parse args σ) as (o & σ' & Hrun & Hcase).
  split.
  - intros (msg & σ2 & Hp). rewrite Hrun in Hp. simplify_eq. by destruct Hcase.
  - intros Hlen. destruct o as [[] | code | msg].
    + destruct Hcase as [? _]. lia.
    + destruct Hcase as [? _]. lia.
    + by eexists _, _.
Qed.

(** X15. How [main] ends when it has an argument.  When it returns, it
    has called [generate] once, with the commands and the path of its
    first block and the flags of its second, [generate] has succeeded, and
    the last thing [main] did was print to standard output what
    [generate] returned.  It exits with status 0 for the version command
    only, after printing the version.  Every other end is exit status 1:
    right after the help text on standard error, or right after the error
    [generate] returned, printed to standard error. *)
Theorem goagen_main_exit_status (E : Env)
    (flag_Parse : list string → FlagParse) (args : list string) (σ : World) :
  (2 ≤ length args)%nat →
  ∃ o σ', goagen_main E flag_Parse args σ = (o, σ') ∧
    ((o = Ret tt ∧
      ∃ cmds path offset v out σg,
        main_args E args σ = (Ret (cmds, path, offset), σ) ∧
        main_flags flag_Parse args offset σ = (Ret v, σ) ∧
        generate E cmds path v.1.1 v.1.2 v.2 σ = (Ret (Ok out), σg) ∧
        σ' = log (EStdout out) σg) ∨
     (o = Exit 0 ∧ args !! 1%nat = Some "version" ∧
      σ' = log (EStdout ("goagen version " +:+ pkg_Version E +:+ nl)) σ) ∨
     (o = Exit 1 ∧ last (w_trace σ') = Some (EStderr help_text)) ∨
     (o = Exit 1 ∧
      ∃ cmds path offset v err σg,
        main_args E args σ = (Ret (cmds, path, offset), σ) ∧
        main_flags flag_Parse args offset σ = (Ret v, σ) ∧
        generate E cmds path v.1.1 v.1.2 v.2 σ = (Ret (Error err), σg) ∧
        σ' = log (EStderr err) σg)).
Proof.
  intros Hlen.
  destruct (goagen_main_cases E flag_Parse args σ) as (o & σ' & Hrun & Hcase).
  exists o, σ'. split; [done |].
  destruct o as [[] | code | msg].
  - left. by destruct Hcase.
  - destruct Hcase as [_ [(-> & Hv & Hσ) | [[-> Hm] | [-> Hg]]]].
    + right. by left.
    + right. right. by left.
    + right. right. by right.
  - destruct Hcase. lia.
Qed.

Lemma goagen_main_exit_status_witness :
  ∃ o σ', goagen_main no_design_env demo_flags ["goagen"; "design"] world0
          = (o, σ') ∧
    ((o = Ret tt ∧
      ∃ cmds path offset v out σg,
        main_args no_design_env ["goagen"; "design"] world0
        = (Ret (cmds, path, offset), world0) ∧
        main_flags demo_flags ["goagen"; "design"] offset world0
        = (Ret v, world0) ∧
        generate no_design_env cmds path v.1.1 v.1.2 v.2 world0
        = (Ret (Ok out), σg) ∧
        σ' = log (EStdout out) σg) ∨
     (o = Exit 0 ∧ ["goagen"; "design"] !! 1%nat = Some "version" ∧
      σ' = log (EStdout ("goagen version " +:+ pkg_Version no_design_env
                          +:+ nl)) world0) ∨
     (o = Exit 1 ∧ last (w_trace σ') = Some (EStderr help_text)) ∨
     (o = Exit 1 ∧
      ∃ cmds path offset v err σg,
        main_args no_design_env ["goagen"; "design"] world0
        = (Ret (cmds, path, offset), world0) ∧
        main_flags demo_flags ["goagen"; "design"] offset world0
        = (Ret v, world0) ∧
        generate no_design_env cmds path v.1.1 v.1.2 v.2 world0
        = (Ret (Error err), σg) ∧
        σ' = log (EStderr err) σg)).
Proof.
  apply (goagen_main_exit_status no_design_env demo_flags
           ["goagen"; "design"] world0).
  simpl. lia.
Defined.

(** In the sample environment [main] prints what the driver printed. *)
Example demo_main_prints_driver_output :
  goagen_main demo_env demo_flags ["goagen"; "server"; "design"] world0
  = (Ret tt,
     log (EStdout ("gen/a.go" +:+ nl))
       (generate demo_env ["server"] "design" "." false false world0).2).
Proof. vm_compute. reflexivity. Qed.

(** X16. A command with no package after it: [main] prints the help text
    to standard error and exits with status 1; [generate] is not called. *)
Theorem goagen_main_command_without_package (E : Env)
    (flag_Parse : list string → FlagParse) (args : list string) (σ : World)
    (c : string) :
  length args = 2%nat → args !! 1%nat = Some c → valid_command c →
  goagen_main E flag_Parse args σ = (Exit 1, log (EStderr help_text) σ).
Proof.
  intros Hlen Hc Hv. unfold goagen_main. unfold mbind, M_bind, bind.
  destruct (main_args_cases E args σ)
    as [[Hl H] | [[Hver H] | [(Hl & _ & H) | H]]].
  - lia.
  - rewrite Hc in Hver. simplify_eq. unfold valid_command in Hv.
    rewrite !elem_of_cons, elem_of_nil in Hv.
    destruct Hv as [Hv | [Hv | [Hv | []]]]; discriminate Hv.
  - by rewrite H.
  - destruct H as (cmds & path & offset & H & _ & Hp & _ & _ & _ & Hvt & Hcase).
    exfalso. apply lookup_lt_Some in Hp.
    destruct Hcase as [[-> _] | [Ho _]]; [| lia].
    revert H. unfold main_args. rewrite (os_Args_at_Some _ _ _ Hc).
    unfold mbind, M_bind, bind, mret, M_ret, ret. cbn [fst snd].
    apply is_command_valid in Hv. rewrite Hv.
    destruct (str_eqb c "version"); [done |].
    rewrite bool_decide_eq_true_2 by done. done.
Qed.

Lemma goagen_main_command_without_package_witness :
  goagen_main demo_env demo_flags ["goagen"; "server"] world0
  = (Exit 1, log (EStderr help_text) world0).
Proof.
  apply (goagen_main_command_without_package demo_env demo_flags
           ["goagen"; "server"] world0 "server").
  - reflexivity.
  - reflexivity.
  - unfold valid_command. rewrite !elem_of_cons. by left.
Defined.

(** ** The writer, as its user sees it *)

Lemma Section_Write_run s path σ old :
  w_files σ !! path = Some old →
  Section_Write s path σ
  = (Ret (Template s (Data s)).2,
     mkWorld (<[path := old +:+ section_text s]> (w_files σ)) (w_dirs σ)
             (w_trace σ ++ [EExecute path (section_text s)])).
Proof.
  intros Hold. unfold Section_Write, section_text.
  destruct (Template s (Data s)) as [out err].
  unfold_calls. simpl. by rewrite Hold.
Qed.

Lemma text_of_snoc pre s : text_of (pre ++ [s]) = text_of pre +:+ section_text s.
Proof.
  induction pre as [| a pre IH]; simpl.
  - by rewrite str_app_nil_r.
  - unfold text_of in *. simpl. by rewrite IH, str_app_assoc.
Qed.

(** X1. The sections are written in order, each after what the one before
    left in the file, and the loop stops at the first section that fails:
    the error is that section's, the file holds what was written up to and
    including its partial output, and the sections after it are not
    executed. *)
Theorem write_sections_stops_at_first_error (pre : list GoSection)
    (s : GoSection) (post : list GoSection) (path : string) (σ : World)
    (old : string) (err : error) :
  w_files σ !! path = Some old →
  Forall section_ok pre →
  (Template s (Data s)).2 = Some err →
  ∃ σ', write_sections (pre ++ s :: post) path σ = (Ret (Some err), σ') ∧
    w_files σ' !! path = Some (old +:+ text_of (pre ++ [s])) ∧
    w_trace σ' =
      w_trace σ ++ map (λ s, EExecute path (section_text s)) (pre ++ [s]).
Proof.
  revert σ old. induction pre as [| a pre IH]; intros σ old Hold Hok Herr.
  - cbn [app write_sections]. unfold mbind, M_bind, bind.
    rewrite (Section_Write_run s path σ old Hold), Herr.
    eexists. split; [reflexivity |]. cbn [w_files w_trace].
    rewrite lookup_insert_eq. unfold text_of. simpl.
    by rewrite str_app_nil_r.
  - apply Forall_cons in Hok as [Ha Hok].
    cbn [app write_sections]. unfold mbind, M_bind, bind.
    rewrite (Section_Write_run a path σ old Hold), Ha.
    set (σ1 := mkWorld _ _ _).
    destruct (IH σ1 (old +:+ section_text a)) as (σ' & Hrun & Hc & Ht);
      [by (subst σ1; simpl; rewrite lookup_insert_eq) | done | done |].
    exists σ'. split; [done |]. split.
    + rewrite Hc. unfold text_of. simpl. by rewrite str_app_assoc.
    + rewrite Ht. subst σ1. simpl. by rewrite <- app_assoc.
Qed.

Lemma write_sections_stops_at_first_error_witness :
  ∃ σ',
    write_sections
      ([mkSection string (λ d, (d, None)) "one "]
         ++ mkSection string (λ d, (d, Some "no such field")) "tw"
         :: [mkSection string (λ d, (d, None)) "three"])
      "f.txt" (mkWorld {["f.txt" := ""]} ∅ [])
    = (Ret (Some "no such field"), σ') ∧
    w_files σ' !! "f.txt" =
      Some ("" +:+ text_of
              ([mkSection string (λ d, (d, None)) "one "]
                 ++ [mkSection string (λ d, (d, Some "no such field")) "tw"])) ∧
    w_trace σ' =
      w_trace (mkWorld {["f.txt" := ""]} ∅ []) ++
      map (λ s, EExecute "f.txt" (section_text s))
        ([mkSection string (λ d, (d, None)) "one "]
           ++ [mkSection string (λ d, (d, Some "no such field")) "tw"]).
Proof.
  apply (write_sections_stops_at_first_error
           [mkSection string (λ d, (d, None)) "one "]
           (mkSection string (λ d, (d, Some "no such field")) "tw")
           [mkSection string (λ d, (d, None)) "three"]
           "f.txt" (mkWorld {["f.txt" := ""]} ∅ []) "" "no such field").
  - vm_compute. reflexivity.
  - repeat constructor.
  - reflexivity.
Defined.

Lemma render_ok ss :
  (render ss).2 = None → Forall section_ok ss ∧ (render ss).1 = text_of ss.
Proof.
  induction ss as [| s ss IH]; simpl; [by split |].
  destruct ((Template s (Data s)).2) eqn:Hs; [done |]. simpl.
  intros Hr. destruct (IH Hr) as [Hok Ht].
  split; [by constructor |]. unfold text_of in *. simpl. by rewrite Ht.
Qed.

(** X2. After a successful [Write] every section of the file rendered
    without error, and the file at the returned path holds what the
    sections wrote, in order and from an empty file on: as it is when the
    path does not end in [.go], and as the formatter returns it when it
    does. *)
Theorem Write_file_content (E : Env) (w w' : Writer) (file : File)
    (σ σ' : World) (p : string) :
  Write E w file σ = (Ret (w', Ok p), σ') →
  ∃ genPkg,
    Forall section_ok (Sections file genPkg) ∧
    if str_eqb (filepath_Ext p) ".go"
    then ∃ b,
      imports_Process_res E p (text_of (Sections file genPkg)) = Ok b ∧
      w_files σ' !! p = Some b
    else w_files σ' !! p = Some (text_of (Sections file genPkg)).
Proof.
  intros Hw.
  destruct (Write_spec E w file σ) as (r0 & σ0 & Hw0 & Hcase).
  destruct (Write_effects E w file σ) as (r & σ1 & Hw1 & _ & Hcontent).
  rewrite Hw in Hw0, Hw1. simplify_eq.
  destruct Hcase as [[Heq _] | (err & Heq & _)]; simplify_eq.
  destruct (Hcontent I) as (genPkg & Hr & Hc).
  destruct (render_ok _ Hr) as [Hok Ht]. rewrite Ht in Hc.
  by exists genPkg.
Qed.

Lemma Write_file_content_witness :
  ∃ genPkg,
    Forall section_ok (Sections (text_file "a.txt" "alpha") genPkg) ∧
    if str_eqb (filepath_Ext "out/a.txt") ".go"
    then ∃ b,
      imports_Process_res demo_env "out/a.txt"
        (text_of (Sections (text_file "a.txt" "alpha") genPkg)) = Ok b ∧
      w_files (Write demo_env (NewWriter "out") (text_file "a.txt" "alpha")
                 world0).2 !! "out/a.txt" = Some b
    else w_files (Write demo_env (NewWriter "out") (text_file "a.txt" "alpha")
                    world0).2 !! "out/a.txt"
         = Some (text_of (Sections (text_file "a.txt" "alpha") genPkg)).
Proof.
  eapply (Write_file_content demo_env (NewWriter "out") _
            (text_file "a.txt" "alpha") world0).
  vm_compute. reflexivity.
Defined.

(** X3. Whatever its result, [Write] makes no call but those of the
    writer (no process is started, nothing is printed), and every file
    other than the one at its computed path is left as it was. *)
Theorem Write_touches_one_file (E : Env) (w : Writer) (file : File)
    (σ : World) :
  ∃ r σ' t, Write E w file σ = (Ret r, σ') ∧
    w_trace σ' = w_trace σ ++ t ∧ Forall is_writer_event t ∧
    ∀ q, q ≠ filepath_Join [Dir w; OutputPath file (Files w)] →
         w_files σ' !! q = w_files σ !! q.
Proof.
  destruct (Write_effects E w file σ)
    as (r & σ' & Hw & [(t & Ht & Hev) Hq] & _).
  by exists r, σ', t.
Qed.

(** X4. [formatCode] returns; when it returns an error the files are what
    they were; when it succeeds the file at [path], and no other, has
    changed: it holds what the formatter made of the bytes it held. *)
Theorem formatCode_all_or_nothing (E : Env) (path : string) (σ : World) :
  ∃ r σ', formatCode E path σ = (Ret r, σ') ∧
    match r with
    | Some _ => w_files σ' = w_files σ
    | None =>
        ∃ c b, w_files σ !! path = Some c ∧
          imports_Process_res E path c = Ok b ∧
          w_files σ' = <[path := b]> (w_files σ)
    end.
Proof.
  destruct (formatCode_files E path σ) as (r & σ' & Hf & _ & Hr).
  by exists r, σ'.
Qed.

(** ** Flags that change nothing, or little *)

(** X10. The debug flag changes the cleanup only: with it and without it
    [generate] ends the same way, with the same value or error. *)
Theorem generate_debug_same_outcome (E : Env) (cmds : list string)
    (path output : string) (gens : bool) (σ : World) :
  (generate E cmds path output gens true σ).1
  = (generate E cmds path output gens false σ).1.
Proof.
  unfold generate. unfold_calls. simpl.
  destruct (build_Import_err E σ path ".") as [err |]; simpl; [done |].
  destruct (exec_LookPath_res E _ "go") as [gobin | err]; simpl; [| done].
  destruct (ioutil_TempDir_res E _ _ "goagen") as [tmpDir | err]; simpl;
    [| done].
  unfold defer.
  destruct (generate_staged E cmds path output tmpDir gobin _)
    as [[r | code | msg] σ1]; done.
Qed.

(** X17. The scaffold flags change nothing: two flag sets that parse the
    arguments to the same values but for [-s] and [-scaffold] make [main]
    do the same. *)
Theorem goagen_main_ignores_scaffold (E : Env)
    (parse1 parse2 : list string → FlagParse) (args : list string)
    (σ : World) :
  (∀ l, same_but_scaffold (parse1 l) (parse2 l)) →
  goagen_main E parse1 args σ = goagen_main E parse2 args σ.
Proof.
  intros Hsame. unfold goagen_main. unfold mbind, M_bind, bind.
  destruct (main_args E args σ) as [[[[cmds path] offset] | code | msg] σ1];
    [| done | done].
  cbn [fst snd]. unfold main_flags.
  case_bool_decide; [| done].
  specialize (Hsame (drop (offset + 1) args)).
  destruct (parse1 _) as [f | p], (parse2 _) as [g | q]; simpl in Hsame;
    try done.
  - destruct Hsame as (Ho & Hout & Hd). rewrite Ho, Hout, Hd. done.
  - by subst.
Qed.

Lemma goagen_main_ignores_scaffold_witness :
  goagen_main demo_env demo_flags ["goagen"; "design"; "-s"] world0
  = goagen_main demo_env
      (λ _, FlagsParsed (mkFlags "" "." true true false))
      ["goagen"; "design"; "-s"] world0.
Proof.
  apply (goagen_main_ignores_scaffold demo_env demo_flags
           (λ _, FlagsParsed (mkFlags "" "." true true false))
           ["goagen"; "design"; "-s"] world0).
  intros l. simpl. by repeat split.
Defined.

Lemma goagen_main_panics_iff_no_argument_witness :
  ∃ msg σ', goagen_main demo_env demo_flags ["goagen"] world0
            = (Panic msg, σ').
Proof.
  apply (goagen_main_panics_iff_no_argument demo_env demo_flags ["goagen"]
           world0).
  simpl. lia.
Defined.

(** ** The loop over the imports only deletes *)

Lemma DeleteNamedImport_imports f name path :
  concat (ast_Imports (astutil_DeleteNamedImport f name path))
  = filter (λ s, delete_matches name path s = false)
           (concat (ast_Imports f)).
Proof.
  unfold astutil_DeleteNamedImport. simpl.
  change (delete_from_group (delete_matches name path))
    with (keep_group (λ s, delete_matches name path s = false)).
  apply concat_keep_groups.
Qed.

Lemma prune_import_shrinks f imp :
  ast_Selectors (prune_import f imp) = ast_Selectors f ∧
  concat (ast_Imports (prune_import f imp))
    `sublist_of` concat (ast_Imports f).
Proof.
  unfold prune_import.
  destruct (astutil_UsesImport f _).
  - split; [done | reflexivity].
  - destruct (imp_Name imp); unfold astutil_DeleteImport;
      (split; [done |]); rewrite DeleteNamedImport_imports;
      apply sublist_filter.
Qed.

(** X6. Whatever the file, the loop of [formatCode] over the imports only
    deletes imports: the imports of the tree afterwards are imports it had
    before, each at most as often, in the same order; the selectors of the
    tree are as they were. *)
Theorem prune_imports_only_deletes (f : ast_File) :
  ast_Selectors (prune_imports f) = ast_Selectors f ∧
  concat (ast_Imports (prune_imports f))
    `sublist_of` concat (ast_Imports f).
Proof.
  unfold prune_imports. generalize (concat (astutil_Imports f)) as l.
  intros l. revert f. induction l as [| imp l IH]; intros f; simpl.
  - split; [done | reflexivity].
  - destruct (IH (prune_import f imp)) as [Hs Hi].
    destruct (prune_import_shrinks f imp) as [Hs1 Hi1].
    split; [congruence |]. by etrans.
Qed.

(** ** The handlers of the account example *)

Ltac unfold_handlers :=
  unfold CreateAccountHTTPHandler, ListAccountHTTPHandler,
    ShowAccountHTTPHandler, DeleteAccountHTTPHandler,
    CreateAccountDecoderFunc, ShowAccountDecoderFunc,
    DeleteAccountDecoderFunc, CreateAccountEncoderFunc,
    ListAccountEncoderFunc, ShowAccountEncoderFunc,
    DeleteAccountEncoderFunc, call_endpoint, call_encoder, encode_error,
    on_writer, hlog, Header_Set, WriteHeader, mbind, mret, H_bind, H_ret
    in *.

Lemma endpoint_calls_app l1 l2 :
  endpoint_calls (l1 ++ l2) = endpoint_calls l1 ++ endpoint_calls l2.
Proof. apply omap_app. Qed.

Lemma encoded_errors_app l1 l2 :
  encoded_errors (l1 ++ l2) = encoded_errors l1 ++ encoded_errors l2.
Proof. apply omap_app. Qed.

Lemma encoded_values_app l1 l2 :
  encoded_values (l1 ++ l2) = encoded_values l1 ++ encoded_values l2.
Proof. apply omap_app. Qed.

Ltac calc_log :=
  cbn [fst snd h_log h_header h_status rw_header rw_status];
  rewrite ?endpoint_calls_app, ?encoded_errors_app, ?encoded_values_app;
  cbn [endpoint_calls encoded_errors encoded_values omap list_omap];
  rewrite ?app_nil_r, <- ?app_assoc.

(** X18. The create handler calls the endpoint only when the request was
    decoded, and then once, with the decoded payload; it encodes at most
    one error, and when it encodes an error it encodes no response. *)
Theorem create_handler_one_answer (T : Deps) (r : Request) (h : Http) :
  let d := (CreateAccountDecoderFunc T r h).1 in
  let h' := (CreateAccountHTTPHandler T r h).2 in
  endpoint_calls (h_log h') =
    endpoint_calls (h_log h) ++
    match d.2 with
    | Some _ => []
    | None => [("account", "show", d.1)]
    end ∧
  ((encoded_errors (h_log h') = encoded_errors (h_log h)) ∨
   (∃ err, encoded_errors (h_log h') = encoded_errors (h_log h) ++ [err] ∧
           encoded_values (h_log h') = encoded_values (h_log h))).
Proof.
  unfold_handlers. cbn [fst snd].
  destruct (decoder T r) as [body [derr |]]; cbn [fst snd].
  { calc_log. split; [done |]. right. by eexists. }
  destruct (newCreateAccountPayload T body) as [payload [perr |]];
    cbn [fst snd].
  { calc_log. split; [done |]. right. by eexists. }
  destruct (endpoint T "account" "show" payload) as [res [eerr |]];
    cbn [fst snd].
  { calc_log. split; [done |]. right. by eexists. }
  destruct res; cbn [fst snd]; calc_log;
    (split; [done |]); try (by left); right; by eexists.
Qed.

(** X19. The show and the delete handler go on after a decoding error:
    they call the endpoint once in every case, with whatever payload the
    decoder returned; when the decoding failed and the endpoint fails too,
    both errors are encoded, the decoding error first; when the decoding
    failed and the endpoint succeeds, the response is handled after the
    error was encoded: the show handler encodes the response, the delete
    handler calls [WriteHeader(204)], which sets the status unless the
    error encoder has set one. *)
Theorem show_delete_handlers_go_on (T : Deps) (r : Request) (h : Http) :
  let id := default "" (req_params r !! "id") in
  let ds := newShowAccountPayload T id in
  let dd := newDeleteAccountPayload T id in
  let hs := (ShowAccountHTTPHandler T r h).2 in
  let hd := (DeleteAccountHTTPHandler T r h).2 in
  endpoint_calls (h_log hs)
    = endpoint_calls (h_log h) ++ [("account", "show", ds.1)] ∧
  endpoint_calls (h_log hd)
    = endpoint_calls (h_log h) ++ [("account", "delete", dd.1)] ∧
  (∀ e1 e2, ds.2 = Some e1 →
     (endpoint T "account" "show" ds.1).2 = Some e2 →
     encoded_errors (h_log hs) = encoded_errors (h_log h) ++ [e1; e2]) ∧
  (∀ e1 e2, dd.2 = Some e1 →
     (endpoint T "account" "delete" dd.1).2 = Some e2 →
     encoded_errors (h_log hd) = encoded_errors (h_log h) ++ [e1; e2]) ∧
  (∀ e1, ds.2 = Some e1 →
     (endpoint T "account" "show" ds.1).2 = None →
     encoded_values (h_log hs)
       = encoded_values (h_log h)
           ++ [(endpoint T "account" "show" ds.1).1] ∧
     ∃ rest, encoded_errors (h_log hs)
             = encoded_errors (h_log h) ++ e1 :: rest) ∧
  (∀ e1, dd.2 = Some e1 →
     (endpoint T "account" "delete" dd.1).2 = None →
     h_status hd = Some (default 204 (h_status (encode_error T r e1 h).2)) ∧
     encoded_errors (h_log hd) = encoded_errors (h_log h) ++ [e1]).
Proof.
  unfold_handlers. cbn [fst snd].
  set (id := default "" (req_params r !! "id")).
  destruct (newShowAccountPayload T id) as [ps [es |]];
    destruct (newDeleteAccountPayload T id) as [pd [ed |]];
    cbn [fst snd];
    destruct (endpoint T "account" "show" ps) as [rs [ees |]];
    destruct (endpoint T "account" "delete" pd) as [rd [eed |]];
    cbn [fst snd h_log h_header h_status rw_header rw_status];
    repeat match goal with
    | |- context [encoder T r ?v ?w] =>
        destruct (encoder T r v w) as [[? |] ?]
    end;
    calc_log;
    repeat split; try done; intros; simplify_eq; calc_log; try done;
    try (by eexists);
    match goal with
    | |- context [rw_status ?w] => by destruct (rw_status w)
    end.
Qed.

Lemma show_delete_handlers_go_on_witness :
  encoded_errors
    (h_log (ShowAccountHTTPHandler demo_deps (mkRequest ∅ "") http0).2)
  = encoded_errors (h_log http0) ++ ["missing id"; "missing payload"].
Proof.
  pose proof (show_delete_handlers_go_on demo_deps (mkRequest ∅ "") http0)
    as (_ & _ & Hs & _).
  apply Hs; reflexivity.
Defined.
